(** * kanji_test.drill.models: the drill engine's item model, sequencer,
      scorer and test-set builder

    A shallow embedding of [src/kanji_test/drill/models.py].  Python text is
    a list of code points, the Django related managers are the rows they
    hold, and the statements that can raise are written in a small
    state-and-exception monad: an exception leaves the state as it was when
    it was raised, nothing is rolled back. *)

From Stdlib Require Import ZArith QArith Ascii.
From stdpp Require Import gmap strings list sorting pretty.

(** ** Text *)

(** A Python 2 [unicode] object: its code points.  [len] is [length], and the
    empty text is the only falsy one. *)
Abbreviation unicode := (list N).

(** [u "abc"] is the text of an ASCII literal. *)
Definition u (s : string) : unicode :=
  (λ c, N.of_nat (Ascii.nat_of_ascii c)) <$> String.list_ascii_of_string s.

(** ** Exceptions and the monad of statements *)

Inductive exception :=
  | ValueError (arg : unicode)
  | NameError (name : string)
  | ZeroDivisionError
  | IndexError
  | IntegrityError
  | OtherException (name : string).

Inductive result (A : Type) :=
  | Return (a : A)
  | Raise (e : exception).
Arguments Return {A} a.
Arguments Raise {A} e.

Definition M (S A : Type) : Type := S → result A * S.

Global Instance M_ret {S} : MRet (M S) := λ A a s, (Return a, s).
Global Instance M_bind {S} : MBind (M S) := λ A B k m s,
  match m s with
  | (Return a, s') => k a s'
  | (Raise e, s') => (Raise e, s')
  end.
Definition raise {S A} (e : exception) : M S A := λ s, (Raise e, s).
Definition get {S} : M S S := λ s, (Return s, s).
Definition put {S} (s : S) : M S unit := λ _, (Return tt, s).

(** [for x in l: body(x)] *)
Fixpoint for_each {S A} (l : list A) (body : A → M S unit) : M S unit :=
  match l with
  | [] => mret tt
  | x :: l' => body x;; for_each l' body
  end.

(** The names the specification gives to the errors of [add_options],
    [Question.__init__] and [ordered_responses]; the code raises
    [ValueError] for each of them. *)
Definition AnswerIsDistractor : exception :=
  ValueError (u "answer included in distractor set").
Definition EmptyOptionValue : exception :=
  ValueError (u "all option values must be non-empty").
Definition DuplicateOptionValue : exception :=
  ValueError (u "all option values must be unique").
Definition IncompleteCoverage : exception :=
  ValueError (u "need full coverage").
Definition InvalidPivot (pivot : unicode) : exception := ValueError pivot.

(** ** Options of a multiple choice question *)

(** A row of [MultipleChoiceOption]; the [question] foreign key is left out:
    a list of rows stands for [question.options], the rows of one question in
    creation order. *)
Record MultipleChoiceOption := {
  value : unicode;
  is_correct : bool;
}.

Global Instance MultipleChoiceOption_eq_dec : EqDecision MultipleChoiceOption.
Proof. solve_decision. Defined.

(** [Meta.unique_together = (('question', 'value'),)]: the rows of one
    question have pairwise distinct values. *)
Definition unique_together (rows : list MultipleChoiceOption) : Prop :=
  NoDup (value <$> rows).

(** [self.options.create(value=v, is_correct=c)]: the store refuses a row
    that breaks [unique_together], otherwise the row is added. *)
Definition options_create (v : unicode) (c : bool)
    : M (list MultipleChoiceOption) unit :=
  λ rows,
    if bool_decide (v ∈ value <$> rows) then (Raise IntegrityError, rows)
    else (Return tt, rows ++ [{| value := v; is_correct := c |}]).

(** [filter(None, values)] keeps the truthy values. *)
Definition filter_None (values : list unicode) : list unicode :=
  filter (λ v, v ≠ []) values.

(** [MultipleChoiceQuestion.add_options] *)
Definition add_options (distractor_values : list unicode) (answer : unicode)
    : M (list MultipleChoiceOption) unit :=
  if bool_decide (answer ∈ distractor_values) then
    raise (ValueError (u "answer included in distractor set"))
  else if bool_decide (length (filter_None distractor_values)
                         < length distractor_values)
          || bool_decide (answer = []) then
    raise (ValueError (u "all option values must be non-empty"))
  else if bool_decide
            (size (list_to_set (C := gset unicode) (distractor_values ++ [answer]))
               < length distractor_values + 1) then
    raise (ValueError (u "all option values must be unique"))
  else
    for_each distractor_values (λ option_value,
      options_create option_value false);;
    options_create answer true.

(** The rows [add_options] is to create. *)
Definition new_options (distractor_values : list unicode) (answer : unicode)
    : list MultipleChoiceOption :=
  ((λ v, {| value := v; is_correct := false |}) <$> distractor_values)
    ++ [{| value := answer; is_correct := true |}].

(** The inputs that break one of the three rules of [add_options]. *)
Definition invalid_options (distractor_values : list unicode)
    (answer : unicode) : Prop :=
  answer ∈ distractor_values
  ∨ [] ∈ distractor_values ++ [answer]
  ∨ ¬ NoDup (distractor_values ++ [answer]).

(** ** Questions *)

(** [cjktools.scripts.Script] *)
Inductive Script :=
  | Hiragana | Katakana | Kanji | Ascii | FullAscii | HalfKatakana | Unknown.

Global Instance Script_eq_dec : EqDecision Script.
Proof. solve_decision. Defined.

(** A row of [Question]; [pk] is Django's [id]. *)
Record Question := {
  pk : Z;
  pivot : unicode;
  pivot_type : string;
  question_type : string;
  question_plugin : Z;
}.

Section QuestionInit.
(** [scripts.ScriptType] comes from cjktools, which is not part of this
    code base: the classifier is a parameter. *)
Variable ScriptType : unicode → Script.

(** [Question.__init__]: [models.Model.__init__] sets the fields from the
    keyword arguments, then the pivot is checked. *)
Definition Question_init (kwargs : Question) : result Question :=
  let self := kwargs in
  if bool_decide (self.(pivot_type) = "k") then
    if bool_decide (length self.(pivot) ≠ 1)
       && bool_decide (ScriptType self.(pivot) ≠ Kanji) then
      Raise (ValueError self.(pivot))
    else Return self
  else if bool_decide (self.(pivot_type) = "w") then
    if bool_decide (length self.(pivot) < 1) then
      Raise (ValueError self.(pivot))
    else Return self
  else Return self.
End QuestionInit.

(** The pivots the constructor refuses. *)
Definition refused_pivot (ScriptType : unicode → Script) (kwargs : Question)
    : Prop :=
  (kwargs.(pivot_type) = "k" ∧ length kwargs.(pivot) ≠ 1
   ∧ ScriptType kwargs.(pivot) ≠ Kanji)
  ∨ (kwargs.(pivot_type) = "w" ∧ kwargs.(pivot) = []).

Global Instance refused_pivot_dec ScriptType kwargs :
  Decision (refused_pivot ScriptType kwargs).
Proof. unfold refused_pivot. apply _. Defined.

(** A classifier in the manner of cjktools' [scriptType]: the Unicode block
    of the first character. *)
Definition script_of_first (s : unicode) : Script :=
  match s with
  | [] => Unknown
  | c :: _ =>
      if bool_decide (0x3040 ≤ c ≤ 0x309f)%N then Hiragana
      else if bool_decide (0x30a0 ≤ c ≤ 0x30ff)%N then Katakana
      else if bool_decide (0x4e00 ≤ c ≤ 0x9fff)%N then Kanji
      else if bool_decide (c ≤ 0x00ff)%N then Ascii
      else if bool_decide (0xff01 ≤ c ≤ 0xff5f)%N then FullAscii
      else if bool_decide (0xff61 ≤ c ≤ 0xff9f)%N then HalfKatakana
      else Unknown
  end.



Record MultipleChoiceQuestion := {
  question : Question;
  stimulus : unicode;
  options : list MultipleChoiceOption;
}.

(** A row of [MultipleChoiceResponse]: the [question] foreign key, the user,
    the time stamp and the selected option. *)
Record MultipleChoiceResponse := {
  response_question : Z;
  response_user : Z;
  timestamp : Z;
  response_option : MultipleChoiceOption;
}.

(** [MultipleChoiceResponse.is_correct] *)
Definition response_is_correct (self : MultipleChoiceResponse) : bool :=
  self.(response_option).(is_correct).

(** ** Test sets *)

(** A [TestSet] with the rows its two many-to-many managers hold, in the
    order the store happens to keep them. *)
Record TestSet := {
  user : Z;
  questions : list MultipleChoiceQuestion;
  responses : list MultipleChoiceResponse;
  random_seed : Z;
}.

(** The rows a many-to-many manager holds after [add] of objects: the join
    table gets one row per distinct primary key among the objects, so a
    question that occurs again is held once.  The store fixes no order of
    these rows; the model keeps the order of first occurrence. *)
Fixpoint distinct_pk (objs : list MultipleChoiceQuestion)
    : list MultipleChoiceQuestion :=
  match objs with
  | [] => []
  | obj :: objs' =>
      obj :: filter (λ q, q.(question).(pk) ≠ obj.(question).(pk))
                    (distinct_pk objs')
  end.

(** The object after [self.questions = new_questions]: the relation is
    cleared and the new questions are added to it. *)
Definition with_questions (self : TestSet)
    (new_questions : list MultipleChoiceQuestion) : TestSet :=
  {| user := self.(user); questions := distinct_pk new_questions;
     responses := self.(responses); random_seed := self.(random_seed) |}.

(** [queryset.order_by(key)]: ascending in the key. *)
Definition key_le {A} (key : A → Z) : relation A :=
  λ a b, (key a ≤ key b)%Z.

Global Instance key_le_dec {A} (key : A → Z) : RelDecision (key_le key).
Proof. intros a b. unfold key_le. apply _. Defined.

Definition order_by {A} (key : A → Z) (rows : list A) : list A :=
  merge_sort (key_le key) rows.

(** A call [name(queryset)] of a global name: [list] is the builtin that
    evaluates the query set, and the module binds no other name. *)
Definition call_global {S A} (name : string) (rows : list A) : M S (list A) :=
  if bool_decide (name = "list") then mret rows else raise (NameError name).

(** [x[i], x[j] = x[j], x[i]] *)
Definition swap {A} (x : list A) (i j : nat) : result (list A) :=
  match x !! j, x !! i with
  | Some xj, Some xi => Return (<[j := xi]> (<[i := xj]> x))
  | _, _ => Raise IndexError
  end.

Definition lift_result {S A} (r : result A) : M S A := λ s, (r, s).

(** ** The random module *)

(** Python's generator: [seed a] is the state [random.seed(a)] leaves, and
    [random g] the next 53-bit draw [k] (the float is [k / 2^53]) with the
    state after it. *)
Class Random (G : Type) := {
  seed : Z → G;
  random : G → Z * G;
  random_range g : (0 ≤ (random g).1 < 2 ^ 53)%Z;
}.

Section RandomModule.
Context `{Random G}.

(** [int(random() * n)], on the exact product. *)
Definition random_below (n : Z) : M G Z :=
  λ g, let '(k, g') := random g in (Return ((k * n) `div` 2 ^ 53)%Z, g').

(** [random.randrange(start, stop)] for a width below [2^53] *)
Definition randrange (start stop : Z) : M G Z :=
  j ← random_below (stop - start); mret (start + j)%Z.

(** [random.choice(seq)]: [seq[int(random() * len(seq))]] *)
Definition choice {A} (seq : list A) : M G A :=
  j ← random_below (Z.of_nat (length seq));
  match seq !! Z.to_nat j with
  | Some x => mret x
  | None => raise IndexError
  end.

(** The loop of [random.shuffle]:
    [for i in reversed(xrange(1, len(x))): j = int(random() * (i+1));
     x[i], x[j] = x[j], x[i]], entered at index [i]. *)
Fixpoint shuffle_from {A} (i : nat) (x : list A) : M G (list A) :=
  match i with
  | 0 => mret x
  | S i' =>
      j ← random_below (Z.of_nat (S i') + 1);
      x' ← lift_result (swap x (S i') (Z.to_nat j));
      shuffle_from i' x'
  end.

Definition shuffle {A} (x : list A) : M G (list A) :=
  shuffle_from (length x - 1) x.

(** [TestSet.ordered_questions] *)
Definition ordered_questions (self : TestSet)
    : M G (list MultipleChoiceQuestion) :=
  question_list ← call_global "list"
                    (order_by (λ q, q.(question).(pk)) self.(questions));
  put (seed self.(random_seed));;
  shuffle question_list.

(** [TestSet.ordered_responses] *)
Definition ordered_responses (self : TestSet)
    : M G (list MultipleChoiceResponse) :=
  response_list ← call_global "lits"
                    (order_by response_question self.(responses));
  if bool_decide (length self.(questions) ≠ length response_list) then
    raise (ValueError (u "need full coverage"))
  else
    put (seed self.(random_seed));;
    shuffle response_list.

(** [ordered_responses] with the builtin [list] where the source names
    [lits], as [ordered_questions] has it. *)
Definition ordered_responses_with_list (self : TestSet)
    : M G (list MultipleChoiceResponse) :=
  response_list ← call_global "list"
                    (order_by response_question self.(responses));
  if bool_decide (length self.(questions) ≠ length response_list) then
    raise (ValueError (u "need full coverage"))
  else
    put (seed self.(random_seed));;
    shuffle response_list.
End RandomModule.

(** ** Scoring *)

(** [float(a) / b] as the exact quotient; the float is its rounding, which
    is monotone and keeps 0 and 1. *)
Definition float_div (a b : Z) : result Q :=
  if bool_decide (b = 0%Z) then Raise ZeroDivisionError
  else Return (a # Z.to_pos b).

(** [TestSet.get_coverage] *)
Definition get_coverage (self : TestSet) : result Q :=
  float_div (Z.of_nat (length self.(responses)))
            (Z.of_nat (length self.(questions))).

(** [TestSet.get_accuracy] *)
Definition get_accuracy (self : TestSet) : result Q :=
  float_div
    (Z.of_nat (length (filter (λ r, r.(response_option).(is_correct) = true)
                              self.(responses))))
    (Z.of_nat (length self.(questions))).

(** The error the specification names for scoring an empty set;
    [models.py] defines and raises no such exception. *)
Definition EmptyTestSet : exception := OtherException "EmptyTestSet".

(** Every response of the set answers a question of the set, and no question
    is answered twice. *)
Definition one_response_per_question (self : TestSet) : Prop :=
  NoDup (response_question <$> self.(responses))
  ∧ ∀ r, r ∈ self.(responses) →
      r.(response_question)
        ∈ (λ q, q.(question).(pk)) <$> self.(questions).

(** ** The test set builder *)

Section Builder.
Context `{Random G}.

(** The syllabus items come from [kanji_test.user_model], outside this
    module: their type, [item.has_kanji()] and
    [user.get_profile().syllabus.get_random_items(n)] are parameters. *)
Context {Item : Type}.
Variable has_kanji : Item → bool.
Variable get_random_items : Z → Z → M G (list Item).
Variable QUESTIONS_PER_SET : Z.

(** What [from_user] uses of a plugin that [load_plugins] returns. *)
Record QuestionFactory := {
  requires_kanji : bool;
  get_question : Item → Z → M G MultipleChoiceQuestion;
}.

(** The effects of a build that the store or a plugin sees, in order. *)
Inductive event :=
  | TestSetSaved (id : nat) (row : TestSet)
  | GetQuestion (plugin : QuestionFactory) (item : Item)
  | QuestionsAssigned (id : nat) (questions : list MultipleChoiceQuestion).

(** The global generator, the [TestSet] table (a row's id is its index)
    and the effects so far. *)
Record world := {
  generator : G;
  testset_table : list TestSet;
  trace : list event;
}.

(** A statement that only uses the [random] module. *)
Definition with_generator {A} (m : M G A) : M world A :=
  λ w, let '(r, g) := m w.(generator) in
       (r, {| generator := g; testset_table := w.(testset_table);
              trace := w.(trace) |}).

Definition emit (e : event) : M world unit :=
  λ w, (Return tt, {| generator := w.(generator);
                      testset_table := w.(testset_table);
                      trace := w.(trace) ++ [e] |}).

(** [test_set.save()] of a new object: the row is inserted and gets the
    next id. *)
Definition save (test_set : TestSet) : M world nat :=
  λ w, let id := length w.(testset_table) in
       (Return id, {| generator := w.(generator);
                      testset_table := w.(testset_table) ++ [test_set];
                      trace := w.(trace) ++ [TestSetSaved id test_set] |}).

(** [test_set.questions = questions]: the relation of row [id] is
    replaced. *)
Definition assign_questions (id : nat)
    (questions : list MultipleChoiceQuestion) : M world unit :=
  λ w, (Return tt,
        {| generator := w.(generator);
           testset_table :=
             alter (λ row, with_questions row questions) id
                   w.(testset_table);
           trace := w.(trace) ++ [QuestionsAssigned id questions] |}).

(** [available_plugins] in the loop of [from_user] *)
Definition available_plugins (question_plugins : list QuestionFactory)
    (item : Item) : list QuestionFactory :=
  let has_kanji := has_kanji item in
  filter (λ p, p.(requires_kanji) = has_kanji) question_plugins.

(** The loop [for item in items] of [from_user], with the questions
    appended so far. *)
Fixpoint build_questions (question_plugins : list QuestionFactory)
    (user : Z) (items : list Item)
    (questions : list MultipleChoiceQuestion)
    : M world (list MultipleChoiceQuestion) :=
  match items with
  | [] => mret questions
  | item :: items' =>
      chosen_plugin ←
        with_generator (choice (available_plugins question_plugins item));
      emit (GetQuestion chosen_plugin item);;
      q ← with_generator (chosen_plugin.(get_question) item user);
      build_questions question_plugins user items' (questions ++ [q])
  end.

Variable load_plugins : list QuestionFactory.

(** The seed [from_user] draws in the world [w], the object it builds
    from it and the world right after [test_set.save()]. *)
Definition drawn_seed (w : world) : Z :=
  (((random w.(generator)).1 * 2 ^ 30) `div` 2 ^ 53)%Z.

Definition new_test_set (user : Z) (w : world) : TestSet :=
  {| user := user; questions := []; responses := [];
     random_seed := drawn_seed w |}.

Definition saved_world (user : Z) (w : world) : world :=
  {| generator := (random w.(generator)).2;
     testset_table := w.(testset_table) ++ [new_test_set user w];
     trace := w.(trace)
              ++ [TestSetSaved (length w.(testset_table))
                               (new_test_set user w)] |}.

(** [TestSet.from_user] *)
Definition from_user (user : Z) : M world TestSet :=
  seed ← with_generator (randrange 0 (2 ^ 30));
  let test_set := {| user := user; questions := []; responses := [];
                     random_seed := seed |} in
  id ← save test_set;
  let question_plugins := load_plugins in
  items ← with_generator (get_random_items user QUESTIONS_PER_SET);
  questions ← build_questions question_plugins user items [];
  assign_questions id questions;;
  mret (with_questions test_set questions).

(** The calls a client of the module can make on the store. *)
Inductive call :=
  | CallFromUser (user : Z)
  | CallOrderedQuestions (id : nat)
  | CallOrderedResponses (id : nat)
  | CallGetCoverage (id : nat)
  | CallGetAccuracy (id : nat).

(** A method of the row [id]; [DoesNotExist] when there is no such row. *)
Definition on_row {A} (id : nat) (method : TestSet → M world A)
    : M world A :=
  λ w, match w.(testset_table) !! id with
       | Some self => method self w
       | None => (Raise (OtherException "DoesNotExist"), w)
       end.

Definition run_call (c : call) (w : world) : world :=
  match c with
  | CallFromUser user => (from_user user w).2
  | CallOrderedQuestions id =>
      (on_row id (λ self, with_generator (ordered_questions self)) w).2
  | CallOrderedResponses id =>
      (on_row id (λ self, with_generator (ordered_responses self)) w).2
  | CallGetCoverage id =>
      (on_row id (λ self, lift_result (get_coverage self)) w).2
  | CallGetAccuracy id =>
      (on_row id (λ self, lift_result (get_accuracy self)) w).2
  end.

Definition run_calls (cs : list call) (w : world) : world :=
  foldl (λ w c, run_call c w) w cs.
End Builder.

(** ** The display of a question *)

(** [PIVOT_TYPES], [QUESTION_TYPES] and [INSTRUCTIONS] *)
Definition PIVOT_TYPES : list (string * unicode) :=
  [("k", u "kanji"); ("w", u "word")].

Definition QUESTION_TYPES : list (string * unicode) :=
  [("rp", u "from reading determine pivot");
   ("gp", u "from gloss determine pivot");
   ("pg", u "from pivot determine gloss");
   ("pr", u "from pivot determine reading")].

Definition INSTRUCTIONS : gmap string unicode :=
  list_to_map
    [("rp", u "Choose the %s which matches the given reading.");
     ("gp", u "Choose the %s which matches the given gloss.");
     ("pg", u "Choose the gloss which matches the given %s.");
     ("pr", u "Choose the reading which matches the given %s.")].

(** The errors of the builtins and of the query sets that [exception] has no
    constructor for. *)
Definition KeyError : exception := OtherException "KeyError".
Definition TypeError : exception := OtherException "TypeError".
Definition UnicodeEncodeError : exception :=
  OtherException "UnicodeEncodeError".
Definition DoesNotExist : exception := OtherException "DoesNotExist".
Definition MultipleObjectsReturned : exception :=
  OtherException "MultipleObjectsReturned".

(** [[vd for (d, vd) in table if d == code][0]] *)
Definition first_verbose (table : list (string * unicode)) (code : string)
    : result unicode :=
  match ((λ p, p.2) <$> filter (λ p, p.1 = code) table) !! 0 with
  | Some vd => Return vd
  | None => Raise IndexError
  end.

(** [Question.pivot_type_verbose] *)
Definition pivot_type_verbose (self : Question) : result unicode :=
  first_verbose PIVOT_TYPES self.(pivot_type).

(** [Question.question_type_verbose] *)
Definition question_type_verbose (self : Question) : result unicode :=
  first_verbose QUESTION_TYPES self.(question_type).

(** An argument of the [%] operator: a text or an integer. *)
Inductive format_arg :=
  | ArgText (t : unicode)
  | ArgInt (n : Z).

(** [str(x)] of an argument *)
Definition arg_text (a : format_arg) : unicode :=
  match a with
  | ArgText t => t
  | ArgInt n => u (pretty n)
  end.

Definition result_map {A B} (f : A → B) (r : result A) : result B :=
  match r with
  | Return a => Return (f a)
  | Raise e => Raise e
  end.

(** [template % args] for the conversions the templates of the module use,
    [%s], [%d] and [%%], without flags or widths; any other conversion is
    outside this function and marked as such. *)
Fixpoint format (template : unicode) (args : list format_arg)
    : result unicode :=
  match template with
  | [] =>
      match args with
      | [] => Return []
      | _ :: _ => Raise TypeError
      end
  | c :: rest =>
      if bool_decide (c = 37%N) then
        match rest with
        | [] => Raise (ValueError (u "incomplete format"))
        | conv :: rest' =>
            if bool_decide (conv = 37%N) then
              result_map (λ t, 37%N :: t) (format rest' args)
            else if bool_decide (conv = 115%N) then
              match args with
              | [] => Raise TypeError
              | a :: args' =>
                  result_map (λ t, arg_text a ++ t) (format rest' args')
              end
            else if bool_decide (conv = 100%N) then
              match args with
              | [] => Raise TypeError
              | ArgInt n :: args' =>
                  result_map (λ t, u (pretty n) ++ t) (format rest' args')
              | ArgText _ :: _ => Raise TypeError
              end
            else Raise (OtherException "conversion outside the model")
        end
      else result_map (λ t, c :: t) (format rest args)
  end.

(** [Question.instructions] *)
Definition instructions (self : Question) : result unicode :=
  match INSTRUCTIONS !! self.(question_type) with
  | None => Raise KeyError
  | Some template =>
      match pivot_type_verbose self with
      | Raise e => Raise e
      | Return label => format template [ArgText label]
      end
  end.

(** [MultipleChoiceQuestion.answer]: [self.options.get(is_correct=True)] on
    the rows of the question. *)
Definition answer (rows : list MultipleChoiceOption)
    : result MultipleChoiceOption :=
  match filter (λ o, o.(is_correct) = true) rows with
  | [] => Raise DoesNotExist
  | [o] => Return o
  | _ :: _ :: _ => Raise MultipleObjectsReturned
  end.

(** ** The form of a test set *)

(** [str(t)] of a unicode text: its ASCII encoding.  ([str] of an integer
    is its decimal text and cannot fail.) *)
Definition str (t : unicode) : result unicode :=
  if bool_decide (Forall (λ c, (c < 128)%N) t) then Return t
  else Raise UnicodeEncodeError.

(** What [forms.ChoiceField] is given. *)
Record ChoiceField := {
  choices : list (unicode * unicode);
  help_text : unicode;
  label : unicode;
}.

(** [fields[name] = field] on the sorted dictionary of a form: a known name
    keeps its place, a new one goes last. *)
Fixpoint fields_set (name : unicode) (field : ChoiceField)
    (fields : list (unicode * ChoiceField)) : list (unicode * ChoiceField) :=
  match fields with
  | [] => [(name, field)]
  | (n, f) :: fields' =>
      if bool_decide (n = name) then (n, field) :: fields'
      else (n, f) :: fields_set name field fields'
  end.

Section ToForm.
(** The id the store gave to an option row. *)
Variable option_id : MultipleChoiceOption → Z.

(** [[(str(opt.id), str(opt.value)) for opt in question.options.all()]] *)
Fixpoint option_choices (opts : list MultipleChoiceOption)
    : result (list (unicode * unicode)) :=
  match opts with
  | [] => Return []
  | opt :: opts' =>
      let id_text := u (pretty (option_id opt)) in
      match str opt.(value) with
      | Raise e => Raise e
      | Return value_text =>
          result_map (λ l, (id_text, value_text) :: l)
                     (option_choices opts')
      end
  end.

(** The loop of [TestForm.__init__] over the questions of [to_form], from
    the fields set so far. *)
Fixpoint TestForm_fields (questions : list MultipleChoiceQuestion)
    (fields : list (unicode * ChoiceField))
    : result (list (unicode * ChoiceField)) :=
  match questions with
  | [] => Return fields
  | q :: questions' =>
      match option_choices q.(options) with
      | Raise e => Raise e
      | Return choices =>
          match instructions q.(question) with
          | Raise e => Raise e
          | Return help_text =>
              match format (u "question_%d") [ArgInt q.(question).(pk)] with
              | Raise e => Raise e
              | Return name =>
                  TestForm_fields questions'
                    (fields_set name
                       {| choices := choices; help_text := help_text;
                          label := q.(stimulus) |} fields)
              end
          end
      end
  end.

(** [TestForm.__init__]: a form without base fields. *)
Definition TestForm_init (questions : list MultipleChoiceQuestion)
    : result (list (unicode * ChoiceField)) :=
  TestForm_fields questions [].

(** What the field of a question holds. *)
Definition field_of (q : MultipleChoiceQuestion)
    (field : unicode * ChoiceField) : Prop :=
  field.1 = u "question_" ++ u (pretty q.(question).(pk))
  ∧ field.2.(label) = q.(stimulus)
  ∧ instructions q.(question) = Return field.2.(help_text)
  ∧ option_choices q.(options) = Return field.2.(choices).
End ToForm.

(** [TestSet.to_form]: the questions the class [TestForm] closes over. *)
Definition to_form `{Random G} (self : TestSet)
    : M G (list MultipleChoiceQuestion) :=
  ordered_questions self.

(** ** The plugins of the user model ([user_model/plugin_api.py]) *)

(** [s.split(sep)] for a separator of one character *)
Fixpoint split_on (sep : Ascii.ascii) (s : string) : list string :=
  match s with
  | EmptyString => [EmptyString]
  | String c s' =>
      if bool_decide (c = sep) then EmptyString :: split_on sep s'
      else match split_on sep s' with
           | [] => [String c EmptyString]
           | part :: parts => String c part :: parts
           end
  end.

(** [sep.join(parts)] *)
Fixpoint join (sep : string) (parts : list string) : string :=
  match parts with
  | [] => EmptyString
  | [part] => part
  | part :: parts' => part +:+ sep +:+ join sep parts'
  end.

Section UserModelPlugins.
(** The objects of the interpreter with the builtins [__import__] and
    [getattr], which belong to Python. *)
Variable PyObject : Type.
Variable import_ : string → result PyObject.
Variable getattr : PyObject → string → result PyObject.

(** [reduce(getattr, names, obj)] *)
Fixpoint reduce_getattr (names : list string) (obj : PyObject)
    : result PyObject :=
  match names with
  | [] => Return obj
  | name :: names' =>
      match getattr obj name with
      | Raise e => Raise e
      | Return obj' => reduce_getattr names' obj'
      end
  end.

(** The body of the loop of [load_plugins] for one path. *)
Definition plugin_class (plugin_path : string) : result PyObject :=
  let path_parts := split_on "."%char plugin_path in
  match import_ (join "." (removelast path_parts)) with
  | Raise e => Raise e
  | Return base_module => reduce_getattr (drop 1 path_parts) base_module
  end.

(** The loop of [load_plugins] over the paths that are left, with the
    classes appended so far. *)
Fixpoint load_plugins_loop (paths : list string)
    (plugin_classes : list PyObject) : result (list PyObject) :=
  match paths with
  | [] => Return plugin_classes
  | plugin_path :: paths' =>
      match plugin_class plugin_path with
      | Raise e => Raise e
      | Return cls => load_plugins_loop paths' (plugin_classes ++ [cls])
      end
  end.

(** [plugin_api.load_plugins], on [settings.USER_MODEL_PLUGINS] *)
Definition load_user_model_plugins (USER_MODEL_PLUGINS : list string)
    : result (list PyObject) :=
  load_plugins_loop USER_MODEL_PLUGINS [].
End UserModelPlugins.

(** ** Chart helpers ([util/charts.py]) *)

(** [choose_max_value] on integers *)
Definition choose_max_value (current_max multiple : Z) : result Z :=
  if bool_decide (multiple = 0%Z) then Raise ZeroDivisionError
  else if bool_decide ((current_max `mod` multiple)%Z = 0%Z) then
    Return current_max
  else Return ((current_max `div` multiple + 1) * multiple)%Z.

(** The generator [_iter_ranges]: what is left of [base] in the current
    pass and the multiplier; [iter_ranges_next] is one [next()]. *)
Definition iter_ranges_start : list Z * Z := ([1; 2; 5]%Z, 1%Z).

Definition iter_ranges_next (st : list Z * Z) : Z * (list Z * Z) :=
  match st.1 with
  | x :: rest => ((x * st.2)%Z, (rest, st.2))
  | [] => ((1 * (st.2 * 10))%Z, ([2; 5]%Z, (st.2 * 10)%Z))
  end.

(** The states of the generator: a positive multiplier and what is left of
    [base]. *)
Definition iter_ranges_positive (st : list Z * Z) : Prop :=
  (0 < st.2)%Z ∧ Forall (λ x, (0 < x)%Z) st.1.

(** The loop of [choose_integer_tick] over the generator; [None] when the
    fuel runs out before a tick is returned. *)
Fixpoint choose_integer_tick_loop (fuel : nat) (st : list Z * Z)
    (diff max_ticks : Z) : option Z :=
  match fuel with
  | 0 => None
  | S fuel' =>
      let '(tick, st') := iter_ranges_next st in
      if bool_decide (diff `div` tick ≤ max_ticks)%Z then Some tick
      else choose_integer_tick_loop fuel' st' diff max_ticks
  end.

(** [choose_integer_tick] on integers *)
Definition choose_integer_tick (fuel : nat) (min_value max_value : Z)
    (max_ticks : Z) : option Z :=
  let diff := (max_value - min_value)%Z in
  choose_integer_tick_loop fuel iter_ranges_start diff max_ticks.

(** The digits of [hex(n)] for a natural number. *)
Definition hex_char (d : N) : Ascii.ascii :=
  match d with
  | 0%N => "0"%char | 1%N => "1"%char | 2%N => "2"%char | 3%N => "3"%char
  | 4%N => "4"%char | 5%N => "5"%char | 6%N => "6"%char | 7%N => "7"%char
  | 8%N => "8"%char | 9%N => "9"%char | 10%N => "a"%char | 11%N => "b"%char
  | 12%N => "c"%char | 13%N => "d"%char | 14%N => "e"%char | _ => "f"%char
  end.

Fixpoint hex_digits_go (fuel : nat) (n : N) (acc : string) : string :=
  match fuel with
  | 0 => acc
  | S fuel' =>
      if bool_decide (n = 0%N) then acc
      else hex_digits_go fuel' (n `div` 16)%N
             (String (hex_char (n `mod` 16)%N) acc)
  end.

Definition hex_digits (n : N) : string :=
  if bool_decide (n = 0%N) then "0"
  else hex_digits_go (N.to_nat (N.size n)) n EmptyString.

(** [hex(c)] of an integer *)
Definition hex (c : Z) : string :=
  if bool_decide (c < 0)%Z then "-0x" +:+ hex_digits (Z.to_N (- c))
  else "0x" +:+ hex_digits (Z.to_N c).

(** [s.replace('0x', '')] *)
Fixpoint remove_0x (s : string) : string :=
  match s with
  | EmptyString => EmptyString
  | String c s' =>
      match s' with
      | String c' s'' =>
          if bool_decide (c = "0"%char) && bool_decide (c' = "x"%char)
          then remove_0x s''
          else String c (remove_0x s')
      | EmptyString => String c EmptyString
      end
  end.

(** The text [to_hex] appends for one component. *)
Definition hex_component (c : Z) : string :=
  if bool_decide (c = 0%Z) then "00" else remove_0x (hex c).

(** [to_hex] *)
Definition to_hex (r g b : Z) : string :=
  join "" [hex_component r; hex_component g; hex_component b].

Section PieChart.
(** The values of a pie chart, with the sum the code forms of them. *)
Variable Value : Type.
Variable zero : Value.
Variable add : Value → Value → Value.

(** The loop of [PieChart.__truncate_options],
    [while len(sorted_data) > max_options - 1:
       other_value += sorted_data.pop()[1]],
    on the list taken from its end: [pop()] removes the last pair of the
    caller's list, and raises [IndexError] on the empty list.  The result
    comes with the pairs the list is left with, also when the loop
    raises. *)
Fixpoint truncate_loop (max_options : Z) (data_from_end : list (string * Value))
    (other_value : Value) : result Value * list (string * Value) :=
  if bool_decide (Z.of_nat (length data_from_end) > max_options - 1)%Z then
    match data_from_end with
    | [] => (Raise IndexError, [])
    | last :: before =>
        truncate_loop max_options before (add other_value last.2)
    end
  else (Return other_value, data_from_end).

(** [PieChart.__truncate_options]: the call works on the list it is given,
    so it is a statement on that list; it returns [None]. *)
Definition truncate_options (sorted_data : list (string * Value))
    (max_options : Z) : result unit * list (string * Value) :=
  match truncate_loop max_options (reverse sorted_data) zero with
  | (Raise e, left_from_end) => (Raise e, reverse left_from_end)
  | (Return other_value, kept_from_end) =>
      (Return tt, reverse kept_from_end ++ [("Other", other_value)])
  end.
End PieChart.

(** ** A generator to run the definitions with *)

(** A linear congruential generator; its upper 53 bits are the draw. *)
Definition lcg_next (g : Z) : Z :=
  ((6364136223846793005 * g + 1442695040888963407) `mod` 2 ^ 64)%Z.

Global Instance lcg_random : Random Z.
Proof.
  refine {| seed a := Z.abs a;
            random g := (lcg_next g `div` 2 ^ 11, lcg_next g)%Z |}.
  intros g. unfold lcg_next. simpl.
  pose proof (Z.mod_pos_bound
    (6364136223846793005 * g + 1442695040888963407) (2 ^ 64)) as Hm.
  split; [apply Z.div_pos; lia|].
  apply Z.div_lt_upper_bound; lia.
Defined.

(** ** Sample data *)

Definition sample_question (id : Z) : MultipleChoiceQuestion :=
  {| question := {| pk := id; pivot := [0x65e5]%N; pivot_type := "k";
                    question_type := "pr"; question_plugin := 1 |};
     stimulus := [0x65e5]%N;
     options := [{| value := u "nichi"; is_correct := true |};
                 {| value := u "getsu"; is_correct := false |}] |}.

Definition sample_response (id : Z) (correct : bool)
    : MultipleChoiceResponse :=
  {| response_question := id; response_user := 1; timestamp := id;
     response_option := {| value := u "nichi"; is_correct := correct |} |}.

Definition sample_set : TestSet :=
  {| user := 1;
     questions := [sample_question 2; sample_question 1; sample_question 3];
     responses := [sample_response 1 true; sample_response 3 false];
     random_seed := 42 |}.

Definition sample_set_reordered : TestSet :=
  {| user := 2;
     questions := [sample_question 3; sample_question 2; sample_question 1];
     responses := [];
     random_seed := 42 |}.

Definition full_set : TestSet :=
  {| user := 1;
     questions := [sample_question 1];
     responses := [sample_response 1 true];
     random_seed := 42 |}.

Definition empty_set : TestSet :=
  {| user := 1; questions := []; responses := []; random_seed := 42 |}.

(** The error the specification names for a factory that runs out of
    distinct distractors. *)
Definition InsufficientDistractors : exception :=
  OtherException "InsufficientDistractors".

(** Two plugins for kanji items, over items that are their own
    [has_kanji]: one that fails, one that returns a question. *)
Definition exhausted_factory : @QuestionFactory Z bool :=
  {| requires_kanji := true;
     get_question := λ _ _, raise InsufficientDistractors |}.

Definition working_factory : @QuestionFactory Z bool :=
  {| requires_kanji := true;
     get_question := λ _ _, mret (sample_question 1) |}.

Definition sample_items (items : list bool) : Z → Z → M Z (list bool) :=
  λ _ _, mret items.

Definition sample_world : @world Z bool :=
  {| generator := 0%Z; testset_table := []; trace := [] |}.

(** Decides a closed decidable proposition by evaluation. *)
Ltac by_evaluation := refine (bool_decide_unpack _ _); vm_compute; exact I.

(** * Properties *)

(** ** [add_options] *)

Section AddOptions.
Implicit Types (rows : list MultipleChoiceOption).
Implicit Types (distractor_values : list unicode) (answer v : unicode).

Lemma filter_None_short distractor_values :
  length (filter_None distractor_values) < length distractor_values
  ↔ [] ∈ distractor_values.
Proof.
  unfold filter_None. split.
  - induction distractor_values as [|v l IH]; simpl; [lia|].
    rewrite filter_cons. destruct (decide (v ≠ [])) as [Hv|Hv]; simpl.
    + intros Hlt. right. apply IH. lia.
    + intros _. destruct v; [left|by destruct Hv].
  - intros Hin. by apply (length_filter_lt _ _ []); [|intros Hne].
Qed.

Lemma size_list_to_set_le (l : list unicode) :
  size (list_to_set (C := gset unicode) l) ≤ length l.
Proof.
  induction l as [|v l IH]; simpl.
  - done.
  - rewrite size_union_alt, size_singleton.
    assert (size (list_to_set (C := gset unicode) l ∖ {[v]})
            ≤ size (list_to_set (C := gset unicode) l)) as Hle;
      [apply subseteq_size, subseteq_difference_l; done|lia].
Qed.

Lemma size_list_to_set_short (l : list unicode) :
  size (list_to_set (C := gset unicode) l) < length l ↔ ¬ NoDup l.
Proof.
  split.
  - intros Hlt Hnd. rewrite size_list_to_set in Hlt by done. lia.
  - induction l as [|v l IH]; intros Hnd; [by destruct Hnd; constructor|].
    simpl. destruct (decide (v ∈ l)) as [Hin|Hin].
    + rewrite (subseteq_union_1_L {[v]} (list_to_set l)).
      * pose proof (size_list_to_set_le l). lia.
      * by apply singleton_subseteq_l, elem_of_list_to_set.
    + assert (¬ NoDup l) as Hl by (intros ?; apply Hnd; by constructor).
      specialize (IH Hl).
      rewrite size_union by set_solver. rewrite size_singleton. lia.
Qed.

(** The loop over the distractors creates its rows one after the other
    when the store holds none of their values. *)
Lemma for_each_create rows distractor_values :
  NoDup ((value <$> rows) ++ distractor_values) →
  for_each distractor_values (λ v, options_create v false) rows
  = (Return tt,
     rows ++ ((λ v, {| value := v; is_correct := false |})
                <$> distractor_values)).
Proof.
  revert rows.
  induction distractor_values as [|v l IH]; intros rows Hnd; simpl.
  - by rewrite app_nil_r.
  - unfold mbind, M_bind, options_create at 1.
    apply NoDup_app in Hnd as (Hrows & Hdisj & Hl).
    rewrite bool_decide_eq_false_2
      by (intros Hin; apply (Hdisj _ Hin); left).
    rewrite IH.
    + by rewrite <-app_assoc.
    + rewrite fmap_app. simpl. rewrite <-app_assoc. simpl.
      apply NoDup_app. split_and!; [done| |done].
      intros x Hx [->|Hx']%elem_of_cons.
      * apply NoDup_cons in Hl as [Hl _]. by apply (Hdisj _ Hx); left.
      * by apply (Hdisj _ Hx); right.
Qed.

(** On rows whose values are apart from the new ones, [add_options]
    appends exactly [new_options]. *)
Lemma add_options_appends rows distractor_values answer :
  (∀ v, v ∈ distractor_values ++ [answer] → v ≠ []) →
  NoDup ((value <$> rows) ++ distractor_values ++ [answer]) →
  add_options distractor_values answer rows
  = (Return tt, rows ++ new_options distractor_values answer).
Proof.
  intros Hne Hnd. unfold add_options.
  assert (NoDup (distractor_values ++ [answer])) as Hnd'
    by (by apply NoDup_app in Hnd as (_ & _ & ?)).
  rewrite bool_decide_eq_false_2; last first.
  { intros Hin. apply NoDup_app in Hnd' as (_ & Hd & _).
    apply (Hd _ Hin). by left. }
  rewrite (bool_decide_eq_false_2 (_ < _)); last first.
  { rewrite filter_None_short. intros Hin.
    apply (Hne []); [|done]. apply elem_of_app. by left. }
  rewrite (bool_decide_eq_false_2 (answer = [])); last first.
  { apply Hne, elem_of_app. right. by left. }
  simpl. rewrite bool_decide_eq_false_2; last first.
  { rewrite size_list_to_set by done. rewrite length_app. simpl. lia. }
  unfold mbind, M_bind. rewrite for_each_create; last first.
  { rewrite app_assoc in Hnd. by apply NoDup_app in Hnd as (? & _ & _). }
  unfold options_create. rewrite bool_decide_eq_false_2; last first.
  { rewrite fmap_app, <-list_fmap_compose. simpl.
    rewrite list_fmap_id. rewrite app_assoc in Hnd.
    apply NoDup_app in Hnd as (_ & Hd & _).
    intros Hin. apply (Hd _ Hin). by left. }
  unfold new_options. by rewrite app_assoc.
Qed.

(** The correct rows among [new_options]. *)
Lemma new_options_correct distractor_values answer :
  filter (λ o, o.(is_correct) = true)
         (new_options distractor_values answer)
  = [{| value := answer; is_correct := true |}].
Proof.
  unfold new_options. rewrite filter_app.
  assert (filter (λ o, o.(is_correct) = true)
            ((λ v, {| value := v; is_correct := false |})
               <$> distractor_values) = []) as ->; [|done].
  induction distractor_values as [|v l IH]; [done|].
  simpl. by rewrite filter_cons_False.
Qed.

Lemma new_options_values distractor_values answer :
  value <$> new_options distractor_values answer
  = distractor_values ++ [answer].
Proof.
  unfold new_options. rewrite fmap_app, <-list_fmap_compose. simpl.
  by rewrite list_fmap_id.
Qed.

(** C2. A call of [add_options] that breaks one of the three rules on its
    input fails and leaves the rows of the question as they were; the
    error is the one of the first rule broken, in the order answer among
    the distractors, empty value, duplicate value, so it is always an
    error whose rule the input breaks. *)
Theorem add_options_rejects rows distractor_values answer :
  invalid_options distractor_values answer →
  ∃ e, add_options distractor_values answer rows = (Raise e, rows)
    ∧ (answer ∈ distractor_values → e = AnswerIsDistractor)
    ∧ (answer ∉ distractor_values → [] ∈ distractor_values ++ [answer] →
         e = EmptyOptionValue)
    ∧ (answer ∉ distractor_values → [] ∉ distractor_values ++ [answer] →
         e = DuplicateOptionValue)
    ∧ ((e = AnswerIsDistractor ∧ answer ∈ distractor_values)
       ∨ (e = EmptyOptionValue ∧ [] ∈ distractor_values ++ [answer])
       ∨ (e = DuplicateOptionValue
          ∧ ¬ NoDup (distractor_values ++ [answer]))).
Proof.
  intros Hbad. unfold add_options.
  destruct (decide (answer ∈ distractor_values)) as [Hin|Hin].
  { rewrite bool_decide_eq_true_2 by done.
    exists AnswerIsDistractor. split_and!; try done. by left. }
  rewrite bool_decide_eq_false_2 by done.
  destruct (decide ([] ∈ distractor_values ++ [answer])) as [Hem|Hem].
  { assert (bool_decide (length (filter_None distractor_values)
                           < length distractor_values)
            || bool_decide (answer = []) = true) as ->.
    { apply elem_of_app in Hem as [Hem|Hem%list_elem_of_singleton].
      - rewrite bool_decide_eq_true_2; [done|].
        by apply filter_None_short.
      - rewrite (bool_decide_eq_true_2 (answer = [])); [|done].
        by rewrite orb_true_r. }
    exists EmptyOptionValue. split_and!; try done. right. by left. }
  rewrite (bool_decide_eq_false_2 (_ < _)); last first.
  { rewrite filter_None_short. intros ?. apply Hem, elem_of_app. by left. }
  rewrite (bool_decide_eq_false_2 (answer = [])); last first.
  { intros ->. apply Hem, elem_of_app. right. by left. }
  simpl. destruct Hbad as [?|[?|Hdup]]; [done..|].
  rewrite bool_decide_eq_true_2; last first.
  { apply size_list_to_set_short in Hdup.
    rewrite length_app in Hdup. simpl in Hdup. lia. }
  exists DuplicateOptionValue. split_and!; try done. right. by right.
Qed.

Lemma add_options_rejects_witness :
  ∃ e, add_options [u "a"; u "a"] (u "b")
         [{| value := u "x"; is_correct := true |}]
       = (Raise e, [{| value := u "x"; is_correct := true |}])
    ∧ e = DuplicateOptionValue.
Proof.
  destruct (add_options_rejects
              [{| value := u "x"; is_correct := true |}]
              [u "a"; u "a"] (u "b")) as (e & Hrun & _ & _ & Hdup & _).
  { right. right. vm_compute. intros Hnd.
    apply NoDup_cons in Hnd as [Hnd _]. apply Hnd. by left. }
  exists e. split; [done|]. apply Hdup; vm_compute.
  - intros Hin. by repeat (apply elem_of_cons in Hin as [?|Hin]);
      try by apply elem_of_nil in Hin.
  - intros Hin. by repeat (apply elem_of_cons in Hin as [?|Hin]);
      try by apply elem_of_nil in Hin.
Defined.

(** C1, as amended. On a question that has no options yet, a call of
    [add_options] whose answer is not among the distractors and whose
    values are non-empty and pairwise distinct succeeds, and the question
    then has exactly [len(distractors) + 1] options: one incorrect option
    per distractor and, as its only correct option, the answer. *)
Theorem add_options_populates distractor_values answer :
  answer ∉ distractor_values →
  (∀ v, v ∈ distractor_values ++ [answer] → v ≠ []) →
  NoDup (distractor_values ++ [answer]) →
  ∃ rows', add_options distractor_values answer [] = (Return tt, rows')
    ∧ rows' = new_options distractor_values answer
    ∧ length rows' = length distractor_values + 1
    ∧ (∀ v, v ∈ distractor_values →
         {| value := v; is_correct := false |} ∈ rows')
    ∧ filter (λ o, o.(is_correct) = true) rows'
      = [{| value := answer; is_correct := true |}]
    ∧ unique_together rows'.
Proof.
  intros _ Hne Hnd. exists (new_options distractor_values answer).
  split_and!.
  - by rewrite add_options_appends.
  - done.
  - unfold new_options. rewrite length_app, length_fmap. simpl. lia.
  - intros v Hv. unfold new_options. apply elem_of_app. left.
    apply list_elem_of_fmap. by exists v.
  - apply new_options_correct.
  - unfold unique_together. by rewrite new_options_values.
Qed.

Lemma add_options_populates_witness :
  ∃ rows', add_options [u "a"; u "b"] (u "c") [] = (Return tt, rows')
    ∧ rows' = [{| value := u "a"; is_correct := false |};
               {| value := u "b"; is_correct := false |};
               {| value := u "c"; is_correct := true |}].
Proof.
  destruct (add_options_populates [u "a"; u "b"] (u "c"))
    as (rows' & Hrun & -> & _).
  - vm_compute. intros Hin.
    by repeat (apply elem_of_cons in Hin as [?|Hin]);
      try by apply elem_of_nil in Hin.
  - intros v Hin ->. vm_compute in Hin.
    by repeat (apply elem_of_cons in Hin as [?|Hin]);
      try by apply elem_of_nil in Hin.
  - vm_compute. repeat (apply NoDup_cons; split);
      [| |  |apply NoDup_nil_2]; intros Hin;
      by repeat (apply elem_of_cons in Hin as [?|Hin]);
        try by apply elem_of_nil in Hin.
  - by exists (new_options [u "a"; u "b"] (u "c")).
Defined.

(** C1 as stated fails on a question that already has an option: the call
    is valid and succeeds, and the question then has two options, both
    correct, where [len(distractors) + 1] is one. *)
Lemma add_options_second_call :
  let rows := [{| value := u "x"; is_correct := true |}] in
  let distractor_values := [] in
  let answer := u "y" in
  ((answer ∉ distractor_values)
   ∧ (∀ v, v ∈ distractor_values ++ [answer] → v ≠ [])
   ∧ NoDup (distractor_values ++ [answer])
   ∧ ∃ rows',
       add_options distractor_values answer rows = (Return tt, rows')
       ∧ length rows' = 2
       ∧ length rows' ≠ length distractor_values + 1
       ∧ length (filter (λ o, o.(is_correct) = true) rows') = 2).
Proof.
  simpl. split_and!.
  - apply not_elem_of_nil.
  - intros v ->%list_elem_of_singleton. done.
  - apply NoDup_singleton.
  - eexists. split; [vm_compute; reflexivity|]. by vm_compute.
Qed.

(** C9. [add_options] asks for no minimum number of options: with no
    distractors and any non-empty answer the call succeeds on a new
    question, which then has the correct answer as its single option; on
    any question without an option of that value it creates exactly that
    one option. *)
Theorem add_options_no_minimum answer :
  answer ≠ [] →
  add_options [] answer []
  = (Return tt, [{| value := answer; is_correct := true |}])
  ∧ ∀ rows, answer ∉ value <$> rows →
      add_options [] answer rows
      = (Return tt, rows ++ [{| value := answer; is_correct := true |}]).
Proof.
  intros Hne.
  assert (∀ rows, answer ∉ value <$> rows →
            add_options [] answer rows
            = (Return tt,
               rows ++ [{| value := answer; is_correct := true |}]))
    as Hrows.
  { intros rows Hin. unfold add_options.
    rewrite (bool_decide_eq_false_2 (answer ∈ []))
      by apply not_elem_of_nil.
    rewrite (bool_decide_eq_false_2 (_ < _)) by (cbn; lia).
    rewrite (bool_decide_eq_false_2 (answer = [])) by done.
    cbn [orb]. rewrite bool_decide_eq_false_2; last first.
    { rewrite size_list_to_set by apply NoDup_singleton. cbn. lia. }
    cbn [for_each]. unfold mbind, M_bind, mret, M_ret, options_create.
    by rewrite bool_decide_eq_false_2. }
  split; [apply (Hrows []), not_elem_of_nil|done].
Qed.

Lemma add_options_no_minimum_witness :
  add_options [] (u "y") []
  = (Return tt, [{| value := u "y"; is_correct := true |}]).
Proof.
  refine (proj1 (add_options_no_minimum (u "y") _)). by vm_compute.
Defined.
End AddOptions.

(** ** [Question.__init__] *)

Section QuestionInitFacts.
Variable ScriptType : unicode → Script.

(** The constructor as one test on its arguments. *)
Lemma Question_init_eq kwargs :
  Question_init ScriptType kwargs
  = if bool_decide (refused_pivot ScriptType kwargs)
    then Raise (InvalidPivot kwargs.(pivot))
    else Return kwargs.
Proof.
  unfold Question_init, refused_pivot, InvalidPivot.
  destruct kwargs as [id p pt qt qp]; simpl.
  repeat case_bool_decide; simpl; try done; exfalso;
    destruct p; simpl in *; intuition (congruence || lia).
Qed.

(** A kanji pivot of length 1 and a non-empty word pivot are accepted. *)
Lemma Question_init_accepts kwargs :
  (kwargs.(pivot_type) = "k" → length kwargs.(pivot) = 1) →
  (kwargs.(pivot_type) = "w" → kwargs.(pivot) ≠ []) →
  Question_init ScriptType kwargs = Return kwargs.
Proof.
  intros Hk Hw. rewrite Question_init_eq.
  rewrite bool_decide_eq_false_2; [done|].
  intros [(Hpt & Hlen & _)|(Hpt & Hp)]; [by apply Hlen, Hk|by apply Hw].
Qed.

(** A kanji pivot that [ScriptType] classifies as kanji is accepted at any
    length. *)
Lemma Question_init_kanji_script kwargs :
  kwargs.(pivot_type) = "k" → ScriptType kwargs.(pivot) = Kanji →
  Question_init ScriptType kwargs = Return kwargs.
Proof.
  intros Hk Hs. rewrite Question_init_eq.
  rewrite bool_decide_eq_false_2; [done|].
  intros [(_ & _ & Hne)|(Hpt & _)]; [done|]. by rewrite Hk in Hpt.
Qed.



End QuestionInitFacts.



(** ** The sequencer *)

Global Instance key_le_trans {A} (key : A → Z) : Transitive (key_le key).
Proof. intros a b c. unfold key_le. lia. Qed.

Global Instance key_le_total {A} (key : A → Z) : Total (key_le key).
Proof. intros a b. unfold key_le. lia. Qed.

Lemma order_by_Permutation {A} (key : A → Z) (rows : list A) :
  order_by key rows ≡ₚ rows.
Proof. apply merge_sort_Permutation. Qed.

(** The order of rows with pairwise distinct keys does not depend on the
    order the store returns them in. *)
Lemma order_by_unique {A} (key : A → Z) (rows1 rows2 : list A) :
  rows1 ≡ₚ rows2 → NoDup (key <$> rows1) →
  order_by key rows1 = order_by key rows2.
Proof.
  intros Hperm Hnd. unfold order_by.
  apply (StronglySorted_unique_strong (key_le key)).
  - intros a b Ha Hb Hab Hba. unfold key_le in *.
    rewrite merge_sort_Permutation in Ha, Hb. rewrite <-Hperm in Hb.
    apply list_elem_of_lookup in Ha as [i Hi], Hb as [j Hj].
    assert (i = j) as ->; [|congruence].
    apply (NoDup_lookup (key <$> rows1) i j (key a)); [done| |].
    + by rewrite list_lookup_fmap, Hi.
    + rewrite list_lookup_fmap, Hj. simpl. f_equal. lia.
  - apply StronglySorted_merge_sort; apply _.
  - apply StronglySorted_merge_sort; apply _.
  - by rewrite !merge_sort_Permutation.
Qed.

Lemma swap_Permutation {A} (x : list A) (i j : nat) :
  i < length x → j < length x →
  ∃ x', swap x i j = Return x' ∧ x' ≡ₚ x.
Proof.
  intros [xi Hi]%lookup_lt_is_Some_2 [xj Hj]%lookup_lt_is_Some_2.
  unfold swap. rewrite Hi, Hj. eexists. split; [done|].
  by apply Permutation_insert_swap.
Qed.

Section Sequencer.
Context `{Random G}.

(** [int(random() * n)] lies in [range(n)] and consumes one draw. *)
Lemma random_below_spec (n : Z) (g : G) :
  (0 < n)%Z →
  ∃ j, random_below n g = (Return j, (random g).2) ∧ (0 ≤ j < n)%Z.
Proof.
  intros Hn. unfold random_below. pose proof (random_range g) as Hk.
  destruct (random g) as [k g']; simpl in *.
  eexists. split; [done|]. split.
  - apply Z.div_pos; lia.
  - apply Z.div_lt_upper_bound; nia.
Qed.

(** The shuffle loop never leaves the list: it returns, and what it
    returns is a permutation of its input. *)
Lemma shuffle_from_Permutation {A} (i : nat) (x : list A) (g : G) :
  i = 0 ∨ i < length x →
  ∃ x' g', shuffle_from i x g = (Return x', g') ∧ x' ≡ₚ x.
Proof.
  revert x g. induction i as [|i IH]; intros x g Hi.
  { by exists x, g. }
  destruct Hi as [|Hi]; [done|].
  cbn [shuffle_from]. unfold mbind, M_bind.
  destruct (random_below_spec (Z.of_nat (S i) + 1) g) as (j & -> & Hj);
    [lia|].
  destruct (swap_Permutation x (S i) (Z.to_nat j)) as (x1 & Hswap & Hx1);
    [lia..|].
  unfold lift_result. rewrite Hswap.
  destruct (IH x1 (random g).2) as (x' & g' & Hrun & Hx').
  { right. rewrite Hx1. lia. }
  exists x', g'. split; [done|]. by rewrite Hx'.
Qed.

Lemma shuffle_Permutation {A} (x : list A) (g : G) :
  ∃ x' g', shuffle x g = (Return x', g') ∧ x' ≡ₚ x.
Proof.
  apply shuffle_from_Permutation. destruct x; simpl; [by left|right; lia].
Qed.

(** [ordered_questions] reseeds the generator: its result is the shuffle
    of the questions in id order from the state [seed random_seed],
    whatever state the generator was in. *)
Lemma ordered_questions_unfold (self : TestSet) (g : G) :
  ordered_questions self g
  = shuffle (order_by (λ q, q.(question).(pk)) self.(questions))
            (seed self.(random_seed)).
Proof. done. Qed.

(** C3. [ordered_questions] returns a permutation of the questions of the
    set that only the seed and the questions in id order determine: it is
    the shuffle of the id-ordered questions from the seeded state, a
    second call returns the same sequence whatever happened to the
    generator in between, and so does a call on any set with the same seed
    that holds the same questions, however the store orders them. *)
Theorem ordered_questions_deterministic (self : TestSet) (g : G) :
  ∃ l g', ordered_questions self g = (Return l, g')
    ∧ l ≡ₚ self.(questions)
    ∧ (Return l, g')
      = shuffle (order_by (λ q, q.(question).(pk)) self.(questions))
                (seed self.(random_seed))
    ∧ (∀ g2, (ordered_questions self g2).1 = Return l)
    ∧ (∀ other g2,
         other.(random_seed) = self.(random_seed) →
         other.(questions) ≡ₚ self.(questions) →
         NoDup ((λ q, q.(question).(pk)) <$> self.(questions)) →
         (ordered_questions other g2).1 = Return l).
Proof.
  rewrite ordered_questions_unfold.
  destruct (shuffle_Permutation
              (order_by (λ q, q.(question).(pk)) self.(questions))
              (seed self.(random_seed))) as (l & g' & Hrun & Hl).
  exists l, g'. split_and!.
  - done.
  - by rewrite Hl, order_by_Permutation.
  - done.
  - intros g2. by rewrite ordered_questions_unfold, Hrun.
  - intros other g2 Hseed Hq Hnd. rewrite ordered_questions_unfold, Hseed.
    rewrite (order_by_unique _ other.(questions) self.(questions)).
    + by rewrite Hrun.
    + done.
    + by rewrite Hq.
Qed.

(** The name [lits] is bound nowhere: [ordered_responses] raises
    [NameError] on every test set and leaves the generator alone. *)
Lemma ordered_responses_NameError (self : TestSet) (g : G) :
  ordered_responses self g = (Raise (NameError "lits"), g).
Proof. done. Qed.

(** With [list] for [lits] the method does what the sibling does: it
    raises [IncompleteCoverage] when the counts differ and returns a
    permutation of the responses, shuffled from the seeded state,
    otherwise. *)
Lemma ordered_responses_with_list_spec (self : TestSet) (g : G) :
  (length self.(responses) ≠ length self.(questions) →
     ordered_responses_with_list self g = (Raise IncompleteCoverage, g))
  ∧ (length self.(responses) = length self.(questions) →
     ∃ l g', ordered_responses_with_list self g = (Return l, g')
       ∧ l ≡ₚ self.(responses)
       ∧ (Return l, g')
         = shuffle (order_by response_question self.(responses))
                   (seed self.(random_seed))).
Proof.
  unfold ordered_responses_with_list, call_global.
  rewrite bool_decide_eq_true_2 by done.
  unfold mbind, M_bind, mret, M_ret.
  assert (length (order_by response_question self.(responses))
          = length self.(responses)) as Hlen
    by (by rewrite order_by_Permutation).
  split; intros Hne.
  - rewrite bool_decide_eq_true_2; [done|]. rewrite Hlen. congruence.
  - rewrite bool_decide_eq_false_2; [|rewrite Hlen; congruence].
    unfold put.
    destruct (shuffle_Permutation
                (order_by response_question self.(responses))
                (seed self.(random_seed))) as (l & g' & Hrun & Hl).
    exists l, g'. split_and!; [done| |done].
    by rewrite Hl, order_by_Permutation.
Qed.
(** The shuffle draws once per index it visits. *)
Lemma shuffle_from_generator {A} (i : nat) (x : list A) (g : G) :
  i = 0 ∨ i < length x →
  (shuffle_from i x g).2 = Nat.iter i (λ g, (random g).2) g.
Proof.
  revert x g. induction i as [|i IH]; intros x g Hi; [done|].
  destruct Hi as [|Hi]; [done|].
  rewrite Nat.iter_succ_r. cbn [shuffle_from]. unfold mbind, M_bind.
  destruct (random_below_spec (Z.of_nat (S i) + 1) g) as (j & -> & Hj);
    [lia|].
  destruct (swap_Permutation x (S i) (Z.to_nat j)) as (x1 & Hswap & Hx1);
    [lia..|].
  unfold lift_result. rewrite Hswap. apply IH. right. rewrite Hx1. lia.
Qed.

(** The state [ordered_questions] leaves the generator in. *)
Lemma ordered_questions_generator (self : TestSet) (g : G) :
  (ordered_questions self g).2
  = Nat.iter (length self.(questions) - 1) (λ g, (random g).2)
             (seed self.(random_seed)).
Proof.
  rewrite ordered_questions_unfold. unfold shuffle.
  assert (length (order_by (λ q, q.(question).(pk)) self.(questions))
          = length self.(questions)) as Hlen
    by (by rewrite order_by_Permutation).
  rewrite shuffle_from_generator; [by rewrite Hlen|].
  destruct (order_by _ _); simpl; [by left|right; lia].
Qed.

End Sequencer.

(** ** The scorer *)

Lemma float_div_nonzero (a b : Z) :
  (0 < b)%Z →
  ∃ c, float_div a b = Return c ∧ (c == inject_Z a / inject_Z b)%Q.
Proof.
  intros Hb. unfold float_div. rewrite bool_decide_eq_false_2 by lia.
  eexists. split; [done|]. rewrite Qmake_Qdiv. by rewrite Z2Pos.id.
Qed.

Lemma float_div_unit (a b : Z) c :
  (0 ≤ a ≤ b)%Z → float_div a b = Return c → (0 <= c <= 1)%Q.
Proof.
  unfold float_div. intros Hab. case_bool_decide; [done|].
  intros [= <-]. unfold Qle. simpl.
  assert (Z.pos (Z.to_pos b) = b) as -> by (apply Z2Pos.id; lia). lia.
Qed.

Lemma one_response_per_question_length (self : TestSet) :
  one_response_per_question self →
  length self.(responses) ≤ length self.(questions).
Proof.
  intros [Hnd Hin].
  rewrite <-(length_fmap response_question self.(responses)).
  rewrite <-(length_fmap (λ q, q.(question).(pk)) self.(questions)).
  apply submseteq_length, NoDup_submseteq; [done|].
  intros x (r & -> & Hr)%list_elem_of_fmap. by apply Hin.
Qed.

(** C5, as amended. On a test set without questions [get_coverage] and
    [get_accuracy] fail with the [ZeroDivisionError] of their own division,
    which is unguarded; on a test set with a question they return the number
    of responses, and of responses whose option is correct, over the number
    of questions, and with at most one response per question both lie
    between 0 and 1. *)
Theorem scoring_spec (self : TestSet) :
  (self.(questions) = [] →
     get_coverage self = Raise ZeroDivisionError
     ∧ get_accuracy self = Raise ZeroDivisionError)
  ∧ (self.(questions) ≠ [] →
     ∃ c a, get_coverage self = Return c ∧ get_accuracy self = Return a
       ∧ (c == inject_Z (Z.of_nat (length self.(responses)))
               / inject_Z (Z.of_nat (length self.(questions))))%Q
       ∧ (a == inject_Z (Z.of_nat (length
                 (filter (λ r, r.(response_option).(is_correct) = true)
                         self.(responses))))
               / inject_Z (Z.of_nat (length self.(questions))))%Q
       ∧ (one_response_per_question self →
            (0 <= c <= 1)%Q ∧ (0 <= a <= 1)%Q)).
Proof.
  unfold get_coverage, get_accuracy. split.
  - intros ->. done.
  - intros Hq.
    assert (0 < Z.of_nat (length self.(questions)))%Z as Hpos
      by (destruct self.(questions); simpl; [done|lia]).
    destruct (float_div_nonzero (Z.of_nat (length self.(responses))) _ Hpos)
      as (c & Hc & Hceq).
    destruct (float_div_nonzero
                (Z.of_nat (length
                   (filter (λ r, r.(response_option).(is_correct) = true)
                           self.(responses)))) _ Hpos)
      as (a & Ha & Haeq).
    exists c, a. split_and!; [done..|].
    intros Hone%one_response_per_question_length.
    pose proof (length_filter
                  (λ r, r.(response_option).(is_correct) = true)
                  self.(responses)).
    split; (eapply float_div_unit; [|done]); lia.
Qed.

(** ** The test set builder *)

Section BuilderFacts.
Context `{Random G} {Item : Type}.
Variable has_kanji : Item → bool.
Variable get_random_items : Z → Z → M G (list Item).
Variable QUESTIONS_PER_SET : Z.
Variable load_plugins : list (@QuestionFactory G Item).

Implicit Types (w : @world G Item) (p : @QuestionFactory G Item).
Implicit Types (items : list Item) (qs : list MultipleChoiceQuestion).

Local Abbreviation build := (build_questions has_kanji).
Local Abbreviation available := (available_plugins has_kanji).
Local Abbreviation from_user' :=
  (from_user has_kanji get_random_items QUESTIONS_PER_SET load_plugins).

Lemma with_generator_spec {A} (m : M G A) w :
  with_generator m w
  = ((m w.(generator)).1,
     {| generator := (m w.(generator)).2;
        testset_table := w.(testset_table); trace := w.(trace) |}).
Proof. unfold with_generator. by destruct (m w.(generator)). Qed.

Lemma elem_of_available_plugins plugins item p :
  p ∈ available plugins item
  ↔ p ∈ plugins ∧ p.(requires_kanji) = has_kanji item.
Proof. unfold available_plugins. by rewrite list_elem_of_filter, (comm (∧)). Qed.

(** [random.choice] of an empty sequence draws, then raises. *)
Lemma choice_nil {A} (g : G) :
  choice (@nil A) g = (Raise IndexError, (random g).2).
Proof.
  unfold choice, random_below, mbind, M_bind.
  destruct (random g) as [k g']. cbn [length Z.of_nat snd].
  by rewrite Z.mul_0_r.
Qed.

Lemma choice_elem {A} (seq : list A) (g : G) :
  seq ≠ [] →
  ∃ x, choice seq g = (Return x, (random g).2) ∧ x ∈ seq.
Proof.
  intros Hne. unfold choice, mbind, M_bind.
  destruct (random_below_spec (Z.of_nat (length seq)) g) as (j & -> & Hj).
  { destruct seq; simpl; [done|lia]. }
  destruct (lookup_lt_is_Some_2 seq (Z.to_nat j)) as [x Hx]; [lia|].
  rewrite Hx. exists x. split; [done|]. by eapply list_elem_of_lookup_2.
Qed.

(** One turn of the loop. *)
Lemma build_questions_cons plugins user item items qs w :
  build plugins user (item :: items) qs w
  = match choice (available plugins item) w.(generator) with
    | (Raise e, g1) =>
        (Raise e, {| generator := g1; testset_table := w.(testset_table);
                     trace := w.(trace) |})
    | (Return p, g1) =>
        match p.(get_question) item user g1 with
        | (Raise e, g2) =>
            (Raise e,
             {| generator := g2; testset_table := w.(testset_table);
                trace := w.(trace) ++ [GetQuestion p item] |})
        | (Return q, g2) =>
            build plugins user items (qs ++ [q])
              {| generator := g2; testset_table := w.(testset_table);
                 trace := w.(trace) ++ [GetQuestion p item] |}
        end
    end.
Proof.
  cbn [build_questions]. unfold mbind, M_bind.
  rewrite with_generator_spec.
  destruct (choice (available plugins item) w.(generator)) as [[p|e] g1];
    [|done].
  simpl. rewrite with_generator_spec. simpl.
  by destruct (p.(get_question) item user g1) as [[q|e] g2].
Qed.

Lemma build_questions_app plugins user items1 items2 qs w :
  build plugins user (items1 ++ items2) qs w
  = match build plugins user items1 qs w with
    | (Return qs1, w1) => build plugins user items2 qs1 w1
    | (Raise e, w1) => (Raise e, w1)
    end.
Proof.
  revert qs w. induction items1 as [|item items1 IH]; intros qs w; [done|].
  rewrite <-app_comm_cons, !build_questions_cons.
  destruct (choice (available plugins item) w.(generator)) as [[p|e] g1];
    [|done].
  destruct (p.(get_question) item user g1) as [[q|e] g2]; [|done].
  apply IH.
Qed.

(** The loop leaves the [TestSet] table alone and asks one plugin per
    item, in order, up to the first failure; when it returns, every item
    has added a question. *)
Lemma build_questions_trace plugins user items qs w :
  ∃ ps, (build plugins user items qs w).2.(testset_table)
        = w.(testset_table)
    ∧ (build plugins user items qs w).2.(trace)
      = w.(trace) ++ zip_with GetQuestion ps items
    ∧ length ps ≤ length items
    ∧ ∀ qs', (build plugins user items qs w).1 = Return qs' →
        length ps = length items
        ∧ length qs' = length qs + length items.
Proof.
  revert qs w. induction items as [|item items IH]; intros qs w.
  { exists []. simpl. rewrite app_nil_r. split_and!; try done.
    intros qs' [= <-]. split; [done|lia]. }
  rewrite build_questions_cons.
  destruct (choice (available plugins item) w.(generator)) as [[p|e] g1].
  2: { exists []. simpl. rewrite app_nil_r. split_and!; try done; lia. }
  destruct (p.(get_question) item user g1) as [[q|e] g2].
  2: { exists [p]. simpl. split_and!; try done; lia. }
  destruct (IH (qs ++ [q])
              {| generator := g2; testset_table := w.(testset_table);
                 trace := w.(trace) ++ [GetQuestion p item] |})
    as (ps & Htab & Htr & Hlen & Hret).
  exists (p :: ps). simpl in *. split_and!.
  - done.
  - by rewrite Htr, <-app_assoc.
  - lia.
  - intros qs' Hqs'. destruct (Hret qs' Hqs') as [? Hl].
    rewrite length_app in Hl. simpl in Hl. lia.
Qed.

(** [from_user] draws the seed and saves the row, then samples the items,
    runs the loop and assigns the questions. *)
Lemma from_user_unfold user w :
  from_user' user w
  = match get_random_items user QUESTIONS_PER_SET
            (saved_world user w).(generator) with
    | (Raise e, g1) =>
        (Raise e,
         {| generator := g1;
            testset_table := (saved_world user w).(testset_table);
            trace := (saved_world user w).(trace) |})
    | (Return items, g1) =>
        match build load_plugins user items []
                {| generator := g1;
                   testset_table := (saved_world user w).(testset_table);
                   trace := (saved_world user w).(trace) |} with
        | (Raise e, w2) => (Raise e, w2)
        | (Return questions, w2) =>
            (Return (with_questions (new_test_set user w) questions),
             (assign_questions (length w.(testset_table)) questions w2).2)
        end
    end.
Proof.
  unfold from_user, mbind, M_bind. rewrite with_generator_spec.
  unfold randrange, random_below, mbind, M_bind, mret, M_ret.
  unfold saved_world, new_test_set, drawn_seed.
  destruct (random w.(generator)) as [k g0]. simpl.
  rewrite Z.sub_0_r, with_generator_spec. simpl.
  destruct (get_random_items user QUESTIONS_PER_SET g0) as [[items|e] g1];
    [|done].
  simpl.
  by destruct (build load_plugins user items [] _) as [[questions|e] w2].
Qed.

Lemma drawn_seed_range w : (0 ≤ drawn_seed w < 2 ^ 30)%Z.
Proof.
  unfold drawn_seed. pose proof (random_range w.(generator)).
  split; [apply Z.div_pos; lia|apply Z.div_lt_upper_bound; lia].
Qed.

Lemma drawn_seed_randrange w :
  randrange 0 (2 ^ 30) w.(generator)
  = (Return (drawn_seed w), (random w.(generator)).2).
Proof.
  unfold randrange, random_below, drawn_seed, mbind, M_bind, mret, M_ret.
  destruct (random w.(generator)) as [k g0]. simpl.
  by rewrite Z.sub_0_r.
Qed.

(** What a call of [from_user] leaves in the store: the new row, with the
    drawn seed, after the rows that were there; and its effects start with
    the save. *)
Lemma from_user_world user w :
  ∃ row evs,
    (from_user' user w).2.(testset_table) = w.(testset_table) ++ [row]
    ∧ row.(random_seed) = drawn_seed w
    ∧ (from_user' user w).2.(trace)
      = w.(trace)
        ++ TestSetSaved (length w.(testset_table)) (new_test_set user w)
           :: evs
    ∧ Forall (λ e, ∀ id row', e ≠ TestSetSaved id row') evs.
Proof.
  rewrite from_user_unfold.
  destruct (get_random_items user QUESTIONS_PER_SET _) as [[items|e] g1].
  2: { exists (new_test_set user w), []. simpl.
       split_and!; try done. }
  match goal with |- context [build _ _ _ _ ?w1] =>
    destruct (build_questions_trace load_plugins user items [] w1)
      as (ps & Htab & Htr & _ & _);
    destruct (build load_plugins user items [] w1)
      as [[questions|e] w2] end; simpl in *.
  - exists (with_questions (new_test_set user w) questions),
      (zip_with GetQuestion ps items
       ++ [QuestionsAssigned (length w.(testset_table)) questions]).
    rewrite Htab, Htr. split_and!.
    + rewrite alter_app_r_alt, Nat.sub_diag by lia. done.
    + done.
    + by rewrite <-!app_assoc.
    + apply Forall_app. split; [|by repeat constructor].
      clear. revert items.
      induction ps as [|p ps IH]; intros [|item items]; simpl;
        constructor; [done|apply IH].
  - exists (new_test_set user w), (zip_with GetQuestion ps items).
    rewrite Htab, Htr. split_and!; [done..|by rewrite <-app_assoc|].
    clear. revert items.
    induction ps as [|p ps IH]; intros [|item items]; simpl;
      constructor; [done|apply IH].
Qed.

(** No call of the module changes the seed of a stored row. *)
Lemma run_call_seed c w id row :
  w.(testset_table) !! id = Some row →
  ∃ row', (run_call has_kanji get_random_items QUESTIONS_PER_SET
             load_plugins c w).(testset_table) !! id = Some row'
    ∧ row'.(random_seed) = row.(random_seed).
Proof.
  intros Hrow. exists row. split; [|done].
  destruct c as [user|id'|id'|id'|id']; simpl.
  - destruct (from_user_world user w) as (new & evs & -> & _).
    by apply lookup_app_l_Some.
  - unfold on_row. destruct (w.(testset_table) !! id'); [|done].
    by rewrite with_generator_spec.
  - unfold on_row. destruct (w.(testset_table) !! id'); [|done].
    by rewrite with_generator_spec.
  - unfold on_row. by destruct (w.(testset_table) !! id').
  - unfold on_row. by destruct (w.(testset_table) !! id').
Qed.

Lemma run_calls_seed cs w id row :
  w.(testset_table) !! id = Some row →
  ∃ row', (run_calls has_kanji get_random_items QUESTIONS_PER_SET
             load_plugins cs w).(testset_table) !! id = Some row'
    ∧ row'.(random_seed) = row.(random_seed).
Proof.
  revert w row. induction cs as [|c cs IH]; intros w row Hrow; simpl.
  { by exists row. }
  destruct (run_call_seed c w id row Hrow) as (row1 & Hrow1 & Hseed1).
  destruct (IH _ row1 Hrow1) as (row' & Hrow' & Hseed').
  exists row'. split; [done|congruence].
Qed.

(** The seed is the upper 30 bits of the 53-bit draw. *)
Lemma drawn_seed_bits w :
  drawn_seed w = ((random w.(generator)).1 `div` 2 ^ 23)%Z.
Proof.
  unfold drawn_seed.
  change (2 ^ 53)%Z with (2 ^ 23 * 2 ^ 30)%Z.
  by rewrite Z.div_mul_cancel_r.
Qed.

(** Every seed comes from the [2^23] draws of one interval. *)
Lemma drawn_seed_draws w (s : Z) :
  drawn_seed w = s
  ↔ (s * 2 ^ 23 ≤ (random w.(generator)).1 < (s + 1) * 2 ^ 23)%Z.
Proof.
  rewrite drawn_seed_bits. set (k := (random w.(generator)).1). split.
  - intros <-. pose proof (Z.div_mod k (2 ^ 23)).
    pose proof (Z.mod_pos_bound k (2 ^ 23)). lia.
  - intros Hk. symmetry. apply Z.div_unique with (r := (k - s * 2 ^ 23)%Z);
      lia.
Qed.

(** A build without items leaves the generator as the sampling of the
    items left it, which ran on the state after the draw of the seed. *)
Lemma from_user_generator user w g1 :
  get_random_items user QUESTIONS_PER_SET (random w.(generator)).2
  = (Return [], g1) →
  (from_user' user w).2.(generator) = g1.
Proof. intros Hitems. rewrite from_user_unfold. simpl. by rewrite Hitems. Qed.

(** [ordered_questions] on a stored row leaves the store as it is and the
    generator in the state that the seed and the number of questions of the
    row fix. *)
Lemma run_call_ordered_questions id self w :
  w.(testset_table) !! id = Some self →
  run_call has_kanji get_random_items QUESTIONS_PER_SET load_plugins
    (CallOrderedQuestions id) w
  = {| generator := Nat.iter (length self.(questions) - 1)
                      (λ g, (random g).2) (seed self.(random_seed));
       testset_table := w.(testset_table); trace := w.(trace) |}.
Proof.
  intros Hrow. simpl. unfold on_row. rewrite Hrow, with_generator_spec.
  simpl. by rewrite ordered_questions_generator.
Qed.

(** C8, as amended. [from_user] draws its seed with [randrange(0, 2**30)]
    from the generator of the module: the seed lies in that range, it is the
    upper 30 bits of the generator's next 53-bit draw, so that every seed of
    the range comes from [2^23] of the [2^53] draws, and the draw takes the
    generator one step on, from where the items are sampled.  The seed is
    thus fixed by the state of the generator and is not fresh: a build that
    follows [ordered_questions] on a stored test set stores the seed that
    the seed and the number of questions of that set fix.  The new row is
    saved with the seed before anything else: the save is the first effect
    of the build, ahead of every call of a plugin.  The row keeps that seed
    when the build ends, also when it fails, the returned test set carries
    it, and no later call of the module changes it. *)
Theorem from_user_seed user w :
  (0 ≤ drawn_seed w < 2 ^ 30)%Z
  ∧ randrange 0 (2 ^ 30) w.(generator)
    = (Return (drawn_seed w), (random w.(generator)).2)
  ∧ (∃ evs, (from_user' user w).2.(trace)
            = w.(trace)
              ++ TestSetSaved (length w.(testset_table))
                              {| user := user; questions := [];
                                 responses := [];
                                 random_seed := drawn_seed w |} :: evs
       ∧ Forall (λ e, ∀ id row', e ≠ TestSetSaved id row') evs)
  ∧ (∀ test_set, (from_user' user w).1 = Return test_set →
       test_set.(random_seed) = drawn_seed w)
  ∧ (∀ cs, ∃ row,
       (run_calls has_kanji get_random_items QUESTIONS_PER_SET
          load_plugins cs (from_user' user w).2).(testset_table)
         !! length w.(testset_table) = Some row
       ∧ row.(random_seed) = drawn_seed w)
  ∧ (∀ s, drawn_seed w = s
          ↔ (s * 2 ^ 23 ≤ (random w.(generator)).1 < (s + 1) * 2 ^ 23)%Z)
  ∧ (∀ g1, get_random_items user QUESTIONS_PER_SET (random w.(generator)).2
           = (Return [], g1) →
       (from_user' user w).2.(generator) = g1)
  ∧ (∀ id self, w.(testset_table) !! id = Some self →
       ∃ row,
         (from_user' user
            (run_call has_kanji get_random_items QUESTIONS_PER_SET
               load_plugins (CallOrderedQuestions id) w)).2.(testset_table)
           !! length w.(testset_table) = Some row
         ∧ row.(random_seed)
           = ((random (Nat.iter (length self.(questions) - 1)
                         (λ g, (random g).2)
                         (seed self.(random_seed)))).1 `div` 2 ^ 23)%Z).
Proof.
  destruct (from_user_world user w) as (row & evs & Htab & Hseed & Htr & Hevs).
  split; [apply drawn_seed_range|].
  split; [apply drawn_seed_randrange|].
  split; [by exists evs|]. split_and!.
  - rewrite from_user_unfold. intros test_set.
    destruct (get_random_items user QUESTIONS_PER_SET _)
      as [[items|e] g1]; [|done].
    destruct (build load_plugins user items [] _) as [[questions|e] w2];
      [|done].
    by intros [= <-].
  - intros cs.
    destruct (run_calls_seed cs (from_user' user w).2
                (length w.(testset_table)) row) as (row' & Hrow' & Hs).
    { rewrite Htab. by apply list_lookup_middle. }
    exists row'. split; [done|congruence].
  - apply drawn_seed_draws.
  - apply from_user_generator.
  - intros id self Hrow.
    rewrite (run_call_ordered_questions id self w Hrow).
    match goal with |- context [from_user' user ?w1] =>
      destruct (from_user_world user w1)
        as (row1 & evs1 & Htab1 & Hseed1 & _) end.
    exists row1. rewrite Htab1. simpl. split.
    + by apply list_lookup_middle.
    + by rewrite Hseed1, drawn_seed_bits.
Qed.


(** The loop fails when it reaches an item no plugin is eligible for. *)
Lemma build_questions_no_plugin plugins user items qs w :
  (∃ item, item ∈ items ∧ available plugins item = []) →
  ∃ e w', build plugins user items qs w = (Raise e, w').
Proof.
  revert qs w. induction items as [|item items IH]; intros qs w.
  { by intros (? & ?%elem_of_nil & _). }
  intros (bad & Hin & Hbad). rewrite build_questions_cons.
  destruct (decide (available plugins item = [])) as [Hnil|Hsome].
  { rewrite Hnil, choice_nil. eauto. }
  apply elem_of_cons in Hin as [->|Hin]; [done|].
  destruct (choice (available plugins item) w.(generator)) as [[p|e] g1];
    [|eauto].
  destruct (p.(get_question) item user g1) as [[q|e] g2]; [|eauto].
  apply IH. eauto.
Qed.


(** C10. The plugins eligible for an item are exactly the loaded plugins
    whose [requires_kanji] is equal to [item.has_kanji()], and a sampled
    item with no eligible plugin makes [from_user] fail: the item is not
    skipped, and when the loop reaches it the error is the [IndexError] of
    [random.choice]. *)
Theorem from_user_eligible_plugins user w items g1 :
  get_random_items user QUESTIONS_PER_SET (saved_world user w).(generator)
  = (Return items, g1) →
  (∀ item p, p ∈ available load_plugins item
             ↔ p ∈ load_plugins ∧ p.(requires_kanji) = has_kanji item)
  ∧ ((∃ item, item ∈ items ∧ available load_plugins item = []) →
       ∃ e w', from_user' user w = (Raise e, w'))
  ∧ (∀ pre item post qs1 w2,
       items = pre ++ item :: post →
       build load_plugins user pre []
         {| generator := g1;
            testset_table := (saved_world user w).(testset_table);
            trace := (saved_world user w).(trace) |} = (Return qs1, w2) →
       available load_plugins item = [] →
       from_user' user w
       = (Raise IndexError,
          {| generator := (random w2.(generator)).2;
             testset_table := w2.(testset_table);
             trace := w2.(trace) |})).
Proof.
  intros Hitems. split_and!.
  - intros item p. apply elem_of_available_plugins.
  - intros Hbad. rewrite from_user_unfold, Hitems.
    match goal with |- context [build _ _ _ _ ?w1] =>
      destruct (build_questions_no_plugin load_plugins user items [] w1
                  Hbad) as (e & w' & ->) end.
    eauto.
  - intros pre item post qs1 w2 -> Hpre Hnil.
    rewrite from_user_unfold, Hitems, build_questions_app, Hpre.
    by rewrite build_questions_cons, Hnil, choice_nil.
Qed.
End BuilderFacts.

(** ** The definitions at work *)

Lemma ordered_questions_deterministic_witness :
  (ordered_questions sample_set_reordered 5%Z).1
  = (ordered_questions sample_set 0%Z).1.
Proof.
  destruct (ordered_questions_deterministic sample_set 0%Z)
    as (l & g' & Hrun & _ & _ & _ & Hother).
  rewrite Hrun. apply Hother.
  - done.
  - apply (Permutation_cons_append [sample_question 2; sample_question 1]).
  - by_evaluation.
Defined.

(** C4. On a test set with one question and its response, where the counts
    agree, [ordered_responses] raises [NameError] for the unbound [lits]; so
    it does on every test set, and never reaches the coverage check or the
    shuffle that [ordered_questions] reaches through [list]. *)
Theorem ordered_responses_full_coverage :
  length full_set.(responses) = length full_set.(questions)
  ∧ ordered_responses full_set 0%Z = (Raise (NameError "lits"), 0%Z)
  ∧ ordered_responses_with_list full_set 0%Z
    = (Return [sample_response 1 true], 42%Z)
  ∧ ordered_responses sample_set 0%Z = (Raise (NameError "lits"), 0%Z)
  ∧ ordered_responses_with_list sample_set 0%Z
    = (Raise IncompleteCoverage, 0%Z).
Proof. by vm_compute. Qed.

Lemma scoring_spec_witness :
  ∃ c a, get_coverage sample_set = Return c
    ∧ get_accuracy sample_set = Return a
    ∧ (0 <= c <= 1)%Q ∧ (0 <= a <= 1)%Q.
Proof.
  destruct (scoring_spec sample_set) as [_ Hsome].
  destruct Hsome as (c & a & Hc & Ha & _ & _ & Hunit); [done|].
  exists c, a. split; [done|]. split; [done|]. apply Hunit.
  split; [by_evaluation|]. intros r Hr.
  repeat (apply elem_of_cons in Hr as [->|Hr]; [by_evaluation|]).
  by apply elem_of_nil in Hr.
Defined.

(** C5 as stated fails on a test set without questions: both scores divide
    by the zero count and fail with [ZeroDivisionError], which is not the
    [EmptyTestSet] of the specification. *)
Lemma scoring_empty_set :
  empty_set.(questions) = []
  ∧ get_coverage empty_set = Raise ZeroDivisionError
  ∧ get_accuracy empty_set = Raise ZeroDivisionError
  ∧ get_coverage empty_set ≠ Raise EmptyTestSet
  ∧ get_accuracy empty_set ≠ Raise EmptyTestSet.
Proof. by vm_compute. Qed.



Lemma from_user_eligible_plugins_witness :
  (from_user (λ b : bool, b) (sample_items [false]) 1
     [exhausted_factory; working_factory] 1 sample_world).1
  = Raise IndexError.
Proof.
  destruct (from_user_eligible_plugins (λ b : bool, b)
              (sample_items [false]) 1 [exhausted_factory; working_factory]
              1 sample_world [false]
              (saved_world 1 sample_world).(generator))
    as (_ & _ & Hreach); [done|].
  by rewrite (Hreach [] false [] [] _ eq_refl eq_refl eq_refl).
Defined.

Lemma from_user_seed_witness :
  ∃ row,
    (from_user (λ b : bool, b) (sample_items [true]) 1
       [working_factory] 1 sample_world).2.(testset_table) !! 0 = Some row
    ∧ row.(random_seed) = 83975903%Z.
Proof.
  destruct (from_user_seed (λ b : bool, b) (sample_items [true]) 1
              [working_factory] 1 sample_world)
    as (_ & _ & _ & _ & Hlater & _).
  destruct (Hlater []) as (row & Hrow & Hseed).
  exists row. split; [done|]. by rewrite Hseed.
Defined.

(** C8 as stated fails for a build that follows a replay: the seed is not
    fresh.  Two builds, each after [ordered_questions] on the stored test
    set 0, store the same seed, although the first build has used the
    generator in between. *)
Lemma from_user_seed_repeats :
  let replay_and_build := [CallOrderedQuestions 0; CallFromUser 1] in
  let w := run_calls (λ b : bool, b) (sample_items [true]) 1
             [working_factory] (replay_and_build ++ replay_and_build)
             {| generator := 0%Z; testset_table := [sample_set];
                trace := [] |} in
  ∃ first second,
    w.(testset_table) !! 1 = Some first
    ∧ w.(testset_table) !! 2 = Some second
    ∧ first.(random_seed) = second.(random_seed).
Proof. vm_compute. eauto. Qed.


(** * Further properties of the module *)

(** ** The display of a question *)

Lemma INSTRUCTIONS_lookup_other (code : string) :
  code ≠ "rp" → code ≠ "gp" → code ≠ "pg" → code ≠ "pr" →
  INSTRUCTIONS !! code = None.
Proof.
  intros. unfold INSTRUCTIONS. simpl.
  rewrite !lookup_insert_ne by done. apply lookup_empty.
Qed.

Lemma first_verbose_QUESTION_TYPES_other (code : string) :
  code ≠ "rp" → code ≠ "gp" → code ≠ "pg" → code ≠ "pr" →
  first_verbose QUESTION_TYPES code = Raise IndexError.
Proof.
  intros. unfold first_verbose, QUESTION_TYPES.
  by rewrite !filter_cons_False, filter_nil by (simpl; congruence).
Qed.

Lemma first_verbose_PIVOT_TYPES_other (code : string) :
  code ≠ "k" → code ≠ "w" →
  first_verbose PIVOT_TYPES code = Raise IndexError.
Proof.
  intros. unfold first_verbose, PIVOT_TYPES.
  by rewrite !filter_cons_False, filter_nil by (simpl; congruence).
Qed.

(** X1. A question whose pivot type is neither ['k'] nor ['w'] passes the
    constructor unchecked, whatever its pivot, and cannot be displayed: its
    verbose pivot type raises [IndexError] and its instructions raise. *)
Theorem undeclared_pivot_type (ScriptType : unicode → Script)
    (self : Question) :
  self.(pivot_type) ≠ "k" → self.(pivot_type) ≠ "w" →
  Question_init ScriptType self = Return self
  ∧ pivot_type_verbose self = Raise IndexError
  ∧ ∃ e, instructions self = Raise e.
Proof.
  intros Hk Hw. split_and!.
  - apply Question_init_accepts; intros; done.
  - by apply first_verbose_PIVOT_TYPES_other.
  - unfold instructions, pivot_type_verbose.
    rewrite first_verbose_PIVOT_TYPES_other by done.
    destruct (INSTRUCTIONS !! self.(question_type)); eauto.
Qed.

Lemma undeclared_pivot_type_witness :
  Question_init script_of_first
    {| pk := 1; pivot := []; pivot_type := "x"; question_type := "rp";
       question_plugin := 1 |}
  = Return {| pk := 1; pivot := []; pivot_type := "x";
              question_type := "rp"; question_plugin := 1 |}
  ∧ instructions {| pk := 1; pivot := []; pivot_type := "x";
                    question_type := "rp"; question_plugin := 1 |}
    = Raise IndexError.
Proof.
  destruct (undeclared_pivot_type script_of_first
              {| pk := 1; pivot := []; pivot_type := "x";
                 question_type := "rp"; question_plugin := 1 |})
    as (Hinit & _ & _); [done..|].
  split; [exact Hinit|by vm_compute].
Defined.

(** X2. The instructions of a question are defined exactly when both its
    question type and its pivot type have a verbose form: every code of
    [QUESTION_TYPES] has a template in [INSTRUCTIONS] and no other code
    has. *)
Theorem instructions_defined (self : Question) :
  (∃ t, instructions self = Return t)
  ↔ (∃ a, question_type_verbose self = Return a)
    ∧ (∃ b, pivot_type_verbose self = Return b).
Proof.
  unfold instructions, question_type_verbose, pivot_type_verbose.
  destruct self as [id p pt qt qp]; simpl.
  destruct (decide (pt = "k")) as [->|Hk];
    [|destruct (decide (pt = "w")) as [->|Hw]].
  3: { rewrite (first_verbose_PIVOT_TYPES_other pt) by done.
       split; [|by intros [_ [? ?]]].
       destruct (INSTRUCTIONS !! qt); by intros [? ?]. }
  all: destruct (decide (qt = "rp")) as [->|?];
    [vm_compute; split; eauto|];
    destruct (decide (qt = "gp")) as [->|?];
    [vm_compute; split; eauto|];
    destruct (decide (qt = "pg")) as [->|?];
    [vm_compute; split; eauto|];
    destruct (decide (qt = "pr")) as [->|?];
    [vm_compute; split; eauto|];
    rewrite INSTRUCTIONS_lookup_other,
      first_verbose_QUESTION_TYPES_other by done;
    split; [by intros [? ?]|by intros [[? ?] _]].
Qed.

(** X3. The instructions of a question are its template with the verbose
    pivot type in the place of the [%s]; when the question type has no
    template the error is [KeyError], also when the pivot type is
    undeclared too. *)
Theorem instructions_text (self : Question) :
  (∀ t, instructions self = Return t →
     ∃ label pre post,
       pivot_type_verbose self = Return label
       ∧ INSTRUCTIONS !! self.(question_type)
         = Some (pre ++ u "%s" ++ post)
       ∧ t = pre ++ label ++ post)
  ∧ (INSTRUCTIONS !! self.(question_type) = None →
     instructions self = Raise KeyError).
Proof.
  split; [|by unfold instructions; intros ->].
  unfold instructions, pivot_type_verbose.
  destruct self as [id p pt qt qp]; simpl. intros t.
  destruct (decide (qt = "rp")) as [->|?];
    [|destruct (decide (qt = "gp")) as [->|?];
      [|destruct (decide (qt = "pg")) as [->|?];
        [|destruct (decide (qt = "pr")) as [->|?]]]].
  5: { by rewrite INSTRUCTIONS_lookup_other. }
  all: destruct (decide (pt = "k")) as [->|Hk];
    [|destruct (decide (pt = "w")) as [->|Hw];
      [|by rewrite (first_verbose_PIVOT_TYPES_other pt) by done;
           destruct (INSTRUCTIONS !! _)]].
  - intros [= <-]. by exists (u "kanji"), (u "Choose the "),
      (u " which matches the given reading.").
  - intros [= <-]. by exists (u "word"), (u "Choose the "),
      (u " which matches the given reading.").
  - intros [= <-]. by exists (u "kanji"), (u "Choose the "),
      (u " which matches the given gloss.").
  - intros [= <-]. by exists (u "word"), (u "Choose the "),
      (u " which matches the given gloss.").
  - intros [= <-]. by exists (u "kanji"),
      (u "Choose the gloss which matches the given "), (u ".").
  - intros [= <-]. by exists (u "word"),
      (u "Choose the gloss which matches the given "), (u ".").
  - intros [= <-]. by exists (u "kanji"),
      (u "Choose the reading which matches the given "), (u ".").
  - intros [= <-]. by exists (u "word"),
      (u "Choose the reading which matches the given "), (u ".").
Qed.

Lemma instructions_text_witness :
  instructions {| pk := 1; pivot := []; pivot_type := "x";
                  question_type := "zz"; question_plugin := 1 |}
  = Raise KeyError.
Proof.
  apply (instructions_text
           {| pk := 1; pivot := []; pivot_type := "x";
              question_type := "zz"; question_plugin := 1 |}).
  by vm_compute.
Defined.

(** ** The options and the store *)

(** What one [create] leaves: the rows, or the rows and the new one. *)
Lemma options_create_spec (v : unicode) (c : bool)
    (rows : list MultipleChoiceOption) :
  (v ∈ value <$> rows
   ∧ options_create v c rows = (Raise IntegrityError, rows))
  ∨ ((v ∉ value <$> rows)
     ∧ options_create v c rows
       = (Return tt, rows ++ [{| value := v; is_correct := c |}])).
Proof.
  unfold options_create. case_bool_decide; [by left|by right].
Qed.

(** The loop over the distractors stops at the first value the store holds
    already, with the rows created before it. *)
Lemma for_each_create_run (distractor_values : list unicode)
    (rows : list MultipleChoiceOption) :
  ∃ n,
    (for_each distractor_values (λ v, options_create v false) rows).2
    = rows ++ ((λ v, {| value := v; is_correct := false |})
                 <$> take n distractor_values)
    ∧ ((for_each distractor_values (λ v, options_create v false) rows).1
       = Return tt ∧ n = length distractor_values
       ∨ (for_each distractor_values (λ v, options_create v false) rows).1
         = Raise IntegrityError ∧ n < length distractor_values)
    ∧ (NoDup (value <$> rows) →
       NoDup (value <$>
                (for_each distractor_values
                   (λ v, options_create v false) rows).2)).
Proof.
  revert rows. induction distractor_values as [|v l IH]; intros rows.
  { exists 0. simpl. rewrite app_nil_r. split_and!; [done|by left|done]. }
  cbn [for_each]. unfold mbind, M_bind.
  destruct (options_create_spec v false rows) as [[Hin ->]|[Hin ->]].
  { exists 0. simpl. rewrite app_nil_r.
    split_and!; [done|right; split; [done|lia]|done]. }
  destruct (IH (rows ++ [{| value := v; is_correct := false |}]))
    as (n & Hst & Hres & Hnd).
  exists (S n). split_and!.
  - rewrite Hst. simpl. by rewrite <-app_assoc.
  - destruct Hres as [[-> ->]|[-> ?]]; [by left|right]. simpl.
    split; [done|lia].
  - intros Hrows. apply Hnd. rewrite fmap_app. simpl.
    apply NoDup_app. split_and!; [done| |apply NoDup_singleton].
    by intros x Hx ->%list_elem_of_singleton.
Qed.

(** A call that returns has appended exactly the new rows. *)
Lemma add_options_returns (distractor_values : list unicode)
    (answer : unicode) (rows rows' : list MultipleChoiceOption) :
  add_options distractor_values answer rows = (Return tt, rows') →
  rows' = rows ++ new_options distractor_values answer.
Proof.
  unfold add_options. repeat (case_match; [done|]).
  unfold mbind, M_bind.
  destruct (for_each_create_run distractor_values rows)
    as (n & Hst & Hres & _).
  destruct (for_each _ _ rows) as [[[]|e] rows1]; simpl in *; [|done].
  destruct Hres as [[_ ->]|[? _]]; [|done].
  rewrite firstn_all in Hst. subst rows1.
  destruct (options_create_spec answer true
              (rows ++ ((λ v, {| value := v; is_correct := false |})
                          <$> distractor_values)))
    as [[_ ->]|[_ ->]]; [done|].
  intros [= <-]. unfold new_options. by rewrite app_assoc.
Qed.

(** X4. Reading back what [add_options] wrote: on a question without a
    correct option, after a call that returns, [answer] is the option of
    the answer. *)
Theorem answer_after_add_options (distractor_values : list unicode)
    (a : unicode) (rows rows' : list MultipleChoiceOption) :
  answer rows = Raise DoesNotExist →
  add_options distractor_values a rows = (Return tt, rows') →
  answer rows' = Return {| value := a; is_correct := true |}.
Proof.
  intros Hnone ->%add_options_returns. unfold answer in *.
  rewrite filter_app, new_options_correct.
  by destruct (filter _ rows) as [|? [|? ?]].
Qed.

Lemma answer_after_add_options_witness :
  answer (new_options [u "a"; u "b"] (u "c"))
  = Return {| value := u "c"; is_correct := true |}.
Proof.
  apply (answer_after_add_options [u "a"; u "b"] (u "c") []);
    by vm_compute.
Defined.

(** X5. A second call that returns on a question that has its answer leaves
    two correct options, and [answer] raises [MultipleObjectsReturned]. *)
Theorem answer_after_second_add_options (distractor_values : list unicode)
    (a : unicode) (rows rows' : list MultipleChoiceOption)
    (o : MultipleChoiceOption) :
  answer rows = Return o →
  add_options distractor_values a rows = (Return tt, rows') →
  answer rows' = Raise MultipleObjectsReturned.
Proof.
  intros Hone ->%add_options_returns. unfold answer in *.
  rewrite filter_app, new_options_correct.
  by destruct (filter _ rows) as [|? [|? ?]].
Qed.

Lemma answer_after_second_add_options_witness :
  answer [{| value := u "x"; is_correct := true |};
          {| value := u "y"; is_correct := true |}]
  = Raise MultipleObjectsReturned.
Proof.
  apply (answer_after_second_add_options [] (u "y")
           [{| value := u "x"; is_correct := true |}] _
           {| value := u "x"; is_correct := true |}); by vm_compute.
Defined.

(** Every outcome of [add_options] leaves the old rows in front, and rows
    with pairwise distinct values distinct. *)
Lemma add_options_run (distractor_values : list unicode) (a : unicode)
    (rows : list MultipleChoiceOption) :
  rows `prefix_of` (add_options distractor_values a rows).2
  ∧ (unique_together rows →
     unique_together (add_options distractor_values a rows).2).
Proof.
  unfold add_options, unique_together.
  repeat (case_match; [done|]).
  unfold mbind, M_bind.
  destruct (for_each_create_run distractor_values rows)
    as (n & Hst & _ & Hnd).
  destruct (for_each _ _ rows) as [[[]|e] rows1]; simpl in *.
  2: { subst rows1. split; [by apply prefix_app_r|done]. }
  destruct (options_create_spec a true rows1) as [[_ ->]|[Hin ->]]; simpl.
  - subst rows1. split; [by apply prefix_app_r|done].
  - split.
    + subst rows1. rewrite <-app_assoc. by apply prefix_app_r.
    + intros Hrows. rewrite fmap_app. simpl.
      apply NoDup_app. split_and!; [by apply Hnd| |apply NoDup_singleton].
      by intros x Hx ->%list_elem_of_singleton.
Qed.

(** X6. [add_options] never removes or changes an option the question has:
    whatever the call does, the rows before it are the first rows after
    it. *)
Theorem add_options_keeps_rows (distractor_values : list unicode)
    (a : unicode) (rows : list MultipleChoiceOption) :
  ∃ created,
    (add_options distractor_values a rows).2 = rows ++ created.
Proof. apply (add_options_run distractor_values a rows). Qed.

(** X7. [unique_together] is an invariant of [add_options]: on rows with
    pairwise distinct values every call, whether it returns or raises,
    leaves rows with pairwise distinct values. *)
Theorem add_options_unique_together (distractor_values : list unicode)
    (a : unicode) (rows : list MultipleChoiceOption) :
  unique_together rows →
  unique_together (add_options distractor_values a rows).2.
Proof. apply (add_options_run distractor_values a rows). Qed.

Lemma add_options_unique_together_witness :
  unique_together
    (add_options [u "a"; u "x"] (u "c")
       [{| value := u "x"; is_correct := true |}]).2.
Proof.
  apply add_options_unique_together. unfold unique_together.
  by_evaluation.
Defined.

Lemma for_each_app {S A} (l1 l2 : list A) (body : A → M S unit) (s : S) :
  for_each (l1 ++ l2) body s
  = match for_each l1 body s with
    | (Return _, s1) => for_each l2 body s1
    | (Raise e, s1) => (Raise e, s1)
    end.
Proof.
  revert s. induction l1 as [|x l1 IH]; intros s; [done|].
  simpl. unfold mbind, M_bind.
  destruct (body x s) as [[[]|e] s1]; [apply IH|done].
Qed.

(** The three checks of [add_options] pass exactly on the valid inputs. *)
Lemma add_options_valid (distractor_values : list unicode) (a : unicode)
    (rows : list MultipleChoiceOption) :
  ¬ invalid_options distractor_values a →
  add_options distractor_values a rows
  = (for_each distractor_values (λ v, options_create v false);;
     options_create a true) rows.
Proof.
  intros Hok. unfold add_options, invalid_options in *.
  rewrite bool_decide_eq_false_2 by tauto.
  rewrite (bool_decide_eq_false_2 (_ < _)); last first.
  { rewrite filter_None_short. intros Hin. apply Hok. right. left.
    apply elem_of_app. by left. }
  rewrite (bool_decide_eq_false_2 (a = [])); last first.
  { intros ->. apply Hok. right. left. apply elem_of_app. right. by left. }
  simpl. rewrite bool_decide_eq_false_2; [done|].
  intros Hlt. apply Hok. right. right.
  apply size_list_to_set_short. rewrite length_app. simpl. lia.
Qed.

Lemma add_options_invalid (distractor_values : list unicode) (a : unicode)
    (rows : list MultipleChoiceOption) :
  invalid_options distractor_values a →
  ∃ msg, add_options distractor_values a rows = (Raise (ValueError msg), rows).
Proof.
  intros Hbad. unfold add_options.
  case_bool_decide; [by eexists|].
  case_bool_decide as Hd; [by eexists|].
  case_bool_decide as Ha; [by eexists|]. cbn [orb].
  case_bool_decide as Hdup; [by eexists|]. exfalso.
  destruct Hbad as [?|[Hin|Hnd]]; [done| |].
  - apply elem_of_app in Hin as [Hin|Hin%list_elem_of_singleton];
      [by apply Hd, filter_None_short|done].
  - apply Hdup. apply size_list_to_set_short in Hnd.
    rewrite length_app in Hnd. simpl in Hnd. lia.
Qed.

(** X8. [add_options] is not atomic against the store: when the input
    passes the three checks and a distractor is the value of an option the
    question has already, the call raises [IntegrityError] at that
    distractor and the options created for the distractors before it
    stay. *)
Theorem add_options_partial (pre post : list unicode) (v a : unicode)
    (rows : list MultipleChoiceOption) :
  ¬ invalid_options (pre ++ v :: post) a →
  v ∈ value <$> rows →
  NoDup ((value <$> rows) ++ pre) →
  add_options (pre ++ v :: post) a rows
  = (Raise IntegrityError,
     rows ++ ((λ v, {| value := v; is_correct := false |}) <$> pre)).
Proof.
  intros Hok Hv Hnd. rewrite add_options_valid by done.
  unfold mbind, M_bind. rewrite for_each_app, for_each_create by done.
  cbn [for_each]. unfold mbind, M_bind.
  destruct (options_create_spec v false
              (rows ++ ((λ v, {| value := v; is_correct := false |})
                          <$> pre))) as [[_ ->]|[Hin _]]; [done|].
  exfalso. apply Hin. rewrite fmap_app. apply elem_of_app. by left.
Qed.

Lemma add_options_partial_witness :
  add_options [u "a"; u "x"; u "b"] (u "c")
    [{| value := u "x"; is_correct := true |}]
  = (Raise IntegrityError,
     [{| value := u "x"; is_correct := true |};
      {| value := u "a"; is_correct := false |}]).
Proof.
  apply (add_options_partial [u "a"] [u "b"] (u "x") (u "c")
           [{| value := u "x"; is_correct := true |}]).
  - intros [Hbad|[Hbad|Hbad]]; revert Hbad; by_evaluation.
  - by_evaluation.
  - by_evaluation.
Defined.

(** X9. On a question without options [add_options] returns exactly on the
    inputs that keep the three rules, and then the question has the new
    options; on every other input it raises [ValueError] and the question
    still has none.  The store never refuses a row there. *)
Theorem add_options_new_question (distractor_values : list unicode)
    (a : unicode) :
  (¬ invalid_options distractor_values a
   ∧ add_options distractor_values a []
     = (Return tt, new_options distractor_values a))
  ∨ (invalid_options distractor_values a
     ∧ ∃ msg, add_options distractor_values a []
              = (Raise (ValueError msg), [])).
Proof.
  destruct (decide (invalid_options distractor_values a)) as [Hbad|Hok].
  { right. split; [done|]. by apply add_options_invalid. }
  left. split; [done|].
  rewrite (add_options_appends [] distractor_values a); [done| |].
  - intros v Hv ->. apply Hok. right. by left.
  - simpl. destruct (decide (NoDup (distractor_values ++ [a])));
      [done|]. exfalso. apply Hok. right. by right.
Qed.

(** ** The scorer *)

Lemma float_div_returns (a b : Z) (c : Q) :
  float_div a b = Return c → b ≠ 0%Z ∧ c = (a # Z.to_pos b).
Proof.
  unfold float_div. case_bool_decide; [done|]. by intros [= <-].
Qed.

(** X10. Accuracy never exceeds coverage, and is not negative: whenever the
    two scores of a test set are defined, [0 <= accuracy <= coverage],
    whatever responses the set holds. *)
Theorem accuracy_le_coverage (self : TestSet) (c a : Q) :
  get_coverage self = Return c → get_accuracy self = Return a →
  (0 <= a)%Q ∧ (a <= c)%Q.
Proof.
  unfold get_coverage, get_accuracy.
  intros [Hq ->]%float_div_returns [_ ->]%float_div_returns.
  pose proof (length_filter
                (λ r, r.(response_option).(is_correct) = true)
                self.(responses)).
  unfold Qle. simpl. split; [lia|].
  apply Z.mul_le_mono_nonneg_r; lia.
Qed.

Lemma accuracy_le_coverage_witness :
  ∃ c a, get_coverage sample_set = Return c
    ∧ get_accuracy sample_set = Return a ∧ (a <= c)%Q.
Proof.
  eexists _, _. split; [reflexivity|]. split; [reflexivity|].
  by apply (accuracy_le_coverage sample_set).
Defined.

(** X11. Coverage is not bounded by 1: when it is defined, it is above 1
    exactly when the set holds more responses than questions, and it is 1
    exactly when it holds as many. *)
Theorem coverage_above_one (self : TestSet) (c : Q) :
  get_coverage self = Return c →
  ((1 < c)%Q ↔ length self.(questions) < length self.(responses))
  ∧ ((c == 1)%Q ↔ length self.(responses) = length self.(questions)).
Proof.
  unfold get_coverage. intros [Hq ->]%float_div_returns.
  unfold Qlt, Qeq. simpl.
  assert (Z.pos (Z.to_pos (Z.of_nat (length self.(questions))))
          = Z.of_nat (length self.(questions))) as -> by (apply Z2Pos.id; lia).
  split; lia.
Qed.

Lemma coverage_above_one_witness :
  ∃ c, get_coverage
         {| user := 1; questions := [sample_question 1];
            responses := [sample_response 1 true; sample_response 1 false];
            random_seed := 42 |} = Return c
    ∧ (1 < c)%Q.
Proof.
  eexists. split; [reflexivity|].
  apply (coverage_above_one
           {| user := 1; questions := [sample_question 1];
              responses := [sample_response 1 true; sample_response 1 false];
              random_seed := 42 |}); [done|simpl; lia].
Defined.

(** ** The sequencer and the generator *)

Lemma swap_fmap {A B} (f : A → B) (x : list A) (i j : nat) :
  swap (f <$> x) i j = result_map (fmap f) (swap x i j).
Proof.
  unfold swap. rewrite !list_lookup_fmap.
  destruct (x !! j) as [xj|], (x !! i) as [xi|]; simpl; try done.
  by rewrite !list_fmap_insert.
Qed.

Section SequencerFacts.
Context `{Random G}.

(** The shuffle moves positions, whatever the elements are. *)
Lemma shuffle_from_fmap {A B} (f : A → B) (i : nat) (x : list A) (g : G) :
  shuffle_from i (f <$> x) g
  = (result_map (fmap f) (shuffle_from i x g).1, (shuffle_from i x g).2).
Proof.
  revert x g. induction i as [|i IH]; intros x g; [done|].
  cbn [shuffle_from]. unfold mbind, M_bind, random_below.
  destruct (random g) as [k g1]. unfold lift_result.
  rewrite swap_fmap. destruct (swap x (S i) _) as [x1|e]; simpl; [|done].
  apply IH.
Qed.

(** X12. A test set with at most one question is left as it is: no draw is
    made, [ordered_questions] returns its questions and the generator is in
    the state the seed gives. *)
Theorem ordered_questions_small (self : TestSet) (g : G) :
  length self.(questions) ≤ 1 →
  ordered_questions self g
  = (Return self.(questions), seed self.(random_seed)).
Proof.
  intros Hlen. rewrite ordered_questions_unfold.
  assert (order_by (λ q, q.(question).(pk)) self.(questions)
          = self.(questions)) as ->.
  { pose proof (order_by_Permutation (λ q, q.(question).(pk))
                  self.(questions)) as Hp.
    destruct self.(questions) as [|q [|q' l]]; simpl in Hlen; [| |lia].
    - by apply Permutation_nil_r in Hp.
    - by apply Permutation_singleton_r in Hp. }
  by destruct self.(questions) as [|q [|q' l]]; simpl in Hlen; [| |lia].
Qed.

(** X13. [ordered_questions] reseeds the generator of the module, so the
    seed that the next [from_user] draws is fixed by the replayed test set:
    after replays of two sets with the same seed and as many questions, in
    whatever state the generator was before, the next builds draw the same
    seed. *)
Theorem seed_after_ordered_questions {Item : Type}
    (self1 self2 : TestSet) (g1 g2 : G) (w1 w2 : @world G Item) :
  self1.(random_seed) = self2.(random_seed) →
  length self1.(questions) = length self2.(questions) →
  w1.(generator) = (ordered_questions self1 g1).2 →
  w2.(generator) = (ordered_questions self2 g2).2 →
  drawn_seed w1 = drawn_seed w2.
Proof.
  intros Hseed Hlen Hw1 Hw2. unfold drawn_seed.
  by rewrite Hw1, Hw2, !ordered_questions_generator, Hseed, Hlen.
Qed.

(** X14. The order [ordered_questions] returns is a rearrangement of
    positions that the seed and the number of questions fix: it is the
    shuffle of the positions [0 .. n-1] from the seeded state, applied to
    the questions in id order. *)
Theorem ordered_questions_positions (self : TestSet) (g : G) :
  ∃ l positions,
    (ordered_questions self g).1 = Return l
    ∧ (shuffle (seq 0 (length self.(questions)))
               (seed self.(random_seed))).1 = Return positions
    ∧ positions ≡ₚ seq 0 (length self.(questions))
    ∧ Some <$> l
      = (λ i, order_by (λ q, q.(question).(pk)) self.(questions) !! i)
          <$> positions.
Proof.
  rewrite ordered_questions_unfold.
  set (sorted := order_by (λ q, q.(question).(pk)) self.(questions)).
  assert (length sorted = length self.(questions)) as Hlen
    by (unfold sorted; by rewrite order_by_Permutation).
  rewrite <-Hlen.
  destruct (shuffle_Permutation (seq 0 (length sorted))
              (seed self.(random_seed))) as (positions & g' & Hpos & Hperm).
  destruct (shuffle_Permutation sorted (seed self.(random_seed)))
    as (l & g'' & Hl & _).
  exists l, positions. rewrite Hl, Hpos. split_and!; [done..|].
  assert (Some <$> sorted = (λ i, sorted !! i) <$> seq 0 (length sorted))
    as Hsorted.
  { apply list_eq. intros i. rewrite !list_lookup_fmap.
    destruct (decide (i < length sorted)) as [Hi|Hi].
    - rewrite lookup_seq_lt by done. simpl.
      by destruct (lookup_lt_is_Some_2 sorted i Hi) as [x ->].
    - rewrite lookup_seq_ge, lookup_ge_None_2 by lia. done. }
  pose proof (shuffle_from_fmap Some (length sorted - 1) sorted
                (seed self.(random_seed))) as Hleft.
  pose proof (shuffle_from_fmap (λ i, sorted !! i) (length sorted - 1)
                (seq 0 (length sorted)) (seed self.(random_seed)))
    as Hright.
  unfold shuffle in Hl, Hpos. rewrite length_seq in Hpos.
  rewrite Hl in Hleft. rewrite Hpos in Hright. rewrite Hsorted in Hleft.
  rewrite Hleft in Hright. simpl in Hright. congruence.
Qed.
End SequencerFacts.

Lemma ordered_questions_small_witness :
  ordered_questions full_set 7%Z
  = (Return [sample_question 1], 42%Z).
Proof.
  rewrite (ordered_questions_small full_set 7%Z) by (simpl; lia). done.
Defined.

Lemma seed_after_ordered_questions_witness :
  drawn_seed
    {| generator := (ordered_questions sample_set 0%Z).2;
       testset_table := []; trace := @nil (@event Z bool) |}
  = drawn_seed
      {| generator := (ordered_questions sample_set_reordered 9%Z).2;
         testset_table := [full_set]; trace := @nil (@event Z bool) |}.
Proof.
  by apply (seed_after_ordered_questions sample_set sample_set_reordered
              0%Z 9%Z).
Defined.

(** ** What a build leaves behind *)

(** The relation holds no primary key twice. *)
Lemma distinct_pk_NoDup (objs : list MultipleChoiceQuestion) :
  NoDup ((λ q, q.(question).(pk)) <$> distinct_pk objs).
Proof.
  induction objs as [|obj objs IH]; simpl; [constructor|].
  apply NoDup_cons. split.
  - intros (q & Hpk & Hq)%list_elem_of_fmap.
    apply list_elem_of_filter in Hq as [Hne _]. by apply Hne.
  - eapply sublist_NoDup; [exact IH|].
    apply fmap_sublist, sublist_filter.
Qed.

Lemma distinct_pk_length (objs : list MultipleChoiceQuestion) :
  length (distinct_pk objs) ≤ length objs.
Proof.
  induction objs as [|obj objs IH]; simpl; [done|].
  pose proof (length_filter
    (λ q, q.(question).(pk) ≠ obj.(question).(pk)) (distinct_pk objs)).
  lia.
Qed.

(** The questions of the relation are the questions that were assigned. *)
Lemma elem_of_distinct_pk (objs : list MultipleChoiceQuestion) (k : Z) :
  k ∈ (λ q, q.(question).(pk)) <$> distinct_pk objs
  ↔ k ∈ (λ q, q.(question).(pk)) <$> objs.
Proof.
  induction objs as [|obj objs IH]; simpl; [done|].
  rewrite !elem_of_cons, <-IH. split; (intros [->|Hin]; [by left|]).
  - right. apply list_elem_of_fmap in Hin as (q & -> & Hq).
    apply list_elem_of_filter in Hq as [_ Hq].
    apply list_elem_of_fmap. by exists q.
  - destruct (decide (k = obj.(question).(pk))) as [->|Hne]; [by left|].
    right. apply list_elem_of_fmap in Hin as (q & -> & Hq).
    apply list_elem_of_fmap. exists q. split; [done|].
    by apply list_elem_of_filter.
Qed.

(** Questions with pairwise distinct ids are all held, in their order. *)
Lemma distinct_pk_id (objs : list MultipleChoiceQuestion) :
  NoDup ((λ q, q.(question).(pk)) <$> objs) → distinct_pk objs = objs.
Proof.
  induction objs as [|obj objs IH]; simpl; [done|].
  intros [Hnew Hrest]%NoDup_cons. rewrite IH by done. f_equal.
  clear IH Hrest. induction objs as [|q objs IH]; [done|].
  simpl in Hnew. apply not_elem_of_cons in Hnew as [Hne Hnew].
  rewrite filter_cons_True by done. f_equal. by apply IH.
Qed.

Section BuildOutcomes.
Context `{Random G} {Item : Type}.
Variable has_kanji : Item → bool.
Variable get_random_items : Z → Z → M G (list Item).
Variable QUESTIONS_PER_SET : Z.
Variable load_plugins : list (@QuestionFactory G Item).

Implicit Types (w : @world G Item) (p : @QuestionFactory G Item).
Implicit Types (items : list Item) (qs : list MultipleChoiceQuestion).

Local Abbreviation build := (build_questions has_kanji).
Local Abbreviation available := (available_plugins has_kanji).
Local Abbreviation from_user' :=
  (from_user has_kanji get_random_items QUESTIONS_PER_SET load_plugins).

(** Every plugin the loop asks is eligible for the item it is asked
    about. *)
Lemma build_questions_asked plugins user items qs w :
  ∃ evs, (build plugins user items qs w).2.(trace) = w.(trace) ++ evs
    ∧ Forall (λ e, ∃ p item, e = GetQuestion p item
                     ∧ item ∈ items ∧ p ∈ available plugins item) evs.
Proof.
  revert qs w. induction items as [|item items IH]; intros qs w.
  { exists []. simpl. by rewrite app_nil_r. }
  rewrite build_questions_cons.
  destruct (decide (available plugins item = [])) as [Hnil|Hsome].
  { rewrite Hnil, choice_nil. exists []. simpl. by rewrite app_nil_r. }
  destruct (choice_elem (available plugins item) w.(generator) Hsome)
    as (p & -> & Hp).
  assert (∃ p' item', GetQuestion p item = GetQuestion p' item'
            ∧ item' ∈ item :: items ∧ p' ∈ available plugins item')
    as Hev by (exists p, item; split_and!; [done|by left|done]).
  destruct (p.(get_question) item user _) as [[q|e] g2].
  2: { exists [GetQuestion p item]. simpl. split; [done|by constructor]. }
  destruct (IH (qs ++ [q])
              {| generator := g2; testset_table := w.(testset_table);
                 trace := w.(trace) ++ [GetQuestion p item] |})
    as (evs & -> & Hevs).
  exists (GetQuestion p item :: evs). simpl. rewrite <-app_assoc.
  split; [done|]. constructor; [done|].
  eapply Forall_impl; [exact Hevs|].
  intros e (p' & item' & -> & Hin & Hp').
  exists p', item'. split_and!; [done|by right|done].
Qed.

(** X15. A build that returns has asked for one question per sampled
    item, and its test set holds each distinct question once: the questions
    of the returned test set are the questions the plugins made with
    repeated ids left out, so they have pairwise distinct ids and are at
    most as many as the items, and exactly as many when the plugins made
    questions with distinct ids.  The test set has no responses and the
    user it was built for, and it is the row the store holds, added after
    the rows that were there. *)
Theorem from_user_returns uid w items g1 test_set w' :
  get_random_items uid QUESTIONS_PER_SET (saved_world uid w).(generator)
  = (Return items, g1) →
  from_user' uid w = (Return test_set, w') →
  ∃ made,
    (build load_plugins uid items []
       {| generator := g1;
          testset_table := (saved_world uid w).(testset_table);
          trace := (saved_world uid w).(trace) |}).1 = Return made
    ∧ length made = length items
    ∧ test_set.(questions) = distinct_pk made
    ∧ NoDup ((λ q, q.(question).(pk)) <$> test_set.(questions))
    ∧ (∀ k, k ∈ (λ q, q.(question).(pk)) <$> test_set.(questions)
            ↔ k ∈ (λ q, q.(question).(pk)) <$> made)
    ∧ length test_set.(questions) ≤ length items
    ∧ (NoDup ((λ q, q.(question).(pk)) <$> made) →
       test_set.(questions) = made
       ∧ length test_set.(questions) = length items)
    ∧ test_set.(user) = uid
    ∧ test_set.(responses) = []
    ∧ w'.(testset_table) = w.(testset_table) ++ [test_set].
Proof.
  intros Hitems. rewrite from_user_unfold, Hitems.
  match goal with |- context [build _ _ _ _ ?w1] =>
    destruct (build_questions_trace has_kanji load_plugins uid items [] w1)
      as (ps & Htab & _ & _ & Hret);
    destruct (build load_plugins uid items [] w1)
      as [[made|e] w2] end; [|done].
  intros [= <- <-]. simpl in *.
  destruct (Hret made eq_refl) as [_ Hlen].
  exists made. split_and!; [done|done|done| | | | |done|done|].
  - apply distinct_pk_NoDup.
  - apply elem_of_distinct_pk.
  - pose proof (distinct_pk_length made). lia.
  - intros Hdistinct. by rewrite distinct_pk_id.
  - rewrite Htab, alter_app_r_alt, Nat.sub_diag by lia. done.
Qed.

(** X16. A build that fails is not rolled back: the row saved at its start
    stays in the store, after the rows that were there, with the user, no
    questions and no responses. *)
Theorem from_user_raises uid w e w' :
  from_user has_kanji get_random_items QUESTIONS_PER_SET load_plugins uid w
  = (Raise e, w') →
  ∃ row, w'.(testset_table) = w.(testset_table) ++ [row]
    ∧ row.(user) = uid ∧ row.(questions) = [] ∧ row.(responses) = [].
Proof.
  rewrite from_user_unfold.
  destruct (get_random_items uid QUESTIONS_PER_SET _) as [[items|e1] g1].
  2: { intros [= <- <-]. by exists (new_test_set uid w). }
  match goal with |- context [build _ _ _ _ ?w1] =>
    destruct (build_questions_trace has_kanji load_plugins uid items [] w1)
      as (ps & Htab & _);
    destruct (build load_plugins uid items [] w1)
      as [[questions|e2] w2] end; [done|].
  intros [= <- <-]. exists (new_test_set uid w). simpl in *.
  by rewrite Htab.
Qed.

(** X17. A build asks only eligible plugins: every [get_question] call it
    makes goes to a loaded plugin whose [requires_kanji] is the
    [has_kanji()] of the item of the call. *)
Theorem from_user_asks_eligible uid w :
  ∃ evs,
    (from_user has_kanji get_random_items QUESTIONS_PER_SET load_plugins
       uid w).2.(trace) = w.(trace) ++ evs
    ∧ ∀ p item, GetQuestion p item ∈ evs →
        p ∈ load_plugins ∧ p.(requires_kanji) = has_kanji item.
Proof.
  rewrite from_user_unfold.
  destruct (get_random_items uid QUESTIONS_PER_SET _) as [[items|e1] g1].
  2: { eexists. split; [done|]. by intros p item ?%list_elem_of_singleton. }
  match goal with |- context [build _ _ _ _ ?w1] =>
    destruct (build_questions_asked load_plugins uid items [] w1)
      as (evs & Htr & Hevs);
    destruct (build load_plugins uid items [] w1)
      as [[questions|e2] w2] end; simpl in *.
  - rewrite Htr, <-!app_assoc. eexists. split; [done|].
    intros p item [?|[Hin|?%list_elem_of_singleton]%elem_of_app]%elem_of_cons;
      [done| |done].
    rewrite Forall_forall in Hevs.
    destruct (Hevs _ Hin) as (p' & item' & [= -> ->] & _ & Hp).
    by apply elem_of_available_plugins in Hp.
  - rewrite Htr, <-!app_assoc. eexists. split; [done|].
    intros p item [?|Hin]%elem_of_cons; [done|].
    rewrite Forall_forall in Hevs.
    destruct (Hevs _ Hin) as (p' & item' & [= -> ->] & _ & Hp).
    by apply elem_of_available_plugins in Hp.
Qed.

(** X18. When the syllabus yields no item the build returns a test set
    without questions, whatever the plugins are; its scores then raise
    [ZeroDivisionError] and its order is empty. *)
Theorem from_user_no_items uid w g1 :
  get_random_items uid QUESTIONS_PER_SET (saved_world uid w).(generator)
  = (Return [], g1) →
  ∃ w', from_user' uid w = (Return (new_test_set uid w), w')
    ∧ get_coverage (new_test_set uid w) = Raise ZeroDivisionError
    ∧ get_accuracy (new_test_set uid w) = Raise ZeroDivisionError
    ∧ ∀ g, (ordered_questions (new_test_set uid w) g).1 = Return [].
Proof.
  intros Hitems. rewrite from_user_unfold, Hitems. simpl.
  eexists. split_and!; done.
Qed.
End BuildOutcomes.

Lemma from_user_returns_witness :
  ∃ test_set w',
    from_user (λ b : bool, b) (sample_items [true; true]) 2
      [working_factory] 1 sample_world = (Return test_set, w')
    ∧ test_set.(questions) = [sample_question 1]
    ∧ w'.(testset_table) = [test_set].
Proof.
  destruct (from_user (λ b : bool, b) (sample_items [true; true]) 2
              [working_factory] 1 sample_world) as [[test_set|e] w'] eqn:Hrun.
  - exists test_set, w'. split; [done|].
    destruct (from_user_returns (λ b : bool, b) (sample_items [true; true])
                2 [working_factory] 1 sample_world [true; true]
                (saved_world 1 sample_world).(generator) test_set w'
                eq_refl Hrun)
      as (made & Hmade & _ & Hqs & _ & _ & _ & _ & _ & _ & Htab).
    vm_compute in Hmade. injection Hmade as <-. by rewrite Hqs, Htab.
  - by vm_compute in Hrun.
Defined.

Lemma from_user_raises_witness :
  ∃ row,
    (from_user (λ b : bool, b) (sample_items [true]) 1 [exhausted_factory] 1
       sample_world).2.(testset_table) = [row]
    ∧ row.(questions) = [].
Proof.
  destruct (from_user_raises (λ b : bool, b) (sample_items [true]) 1
              [exhausted_factory] 1 sample_world InsufficientDistractors
              (from_user (λ b : bool, b) (sample_items [true]) 1
                 [exhausted_factory] 1 sample_world).2)
    as (row & Htab & _ & Hq & _); [done|].
  by exists row.
Defined.

Lemma from_user_asks_eligible_witness :
  ∃ evs,
    (from_user (λ b : bool, b) (sample_items [true]) 1 [working_factory] 1
       sample_world).2.(trace) = evs
    ∧ ∀ p item, GetQuestion p item ∈ evs → p.(requires_kanji) = item.
Proof.
  destruct (from_user_asks_eligible (λ b : bool, b) (sample_items [true]) 1
              [working_factory] 1 sample_world) as (evs & Htr & Hevs).
  exists evs. split; [by rewrite Htr|].
  intros p item Hin. by destruct (Hevs p item Hin).
Defined.

Lemma from_user_no_items_witness :
  (from_user (λ b : bool, b) (sample_items []) 1 [working_factory] 1
     sample_world).1
  = Return {| user := 1; questions := []; responses := [];
              random_seed := 83975903 |}.
Proof.
  destruct (from_user_no_items (λ b : bool, b) (sample_items []) 1
              [working_factory] 1 sample_world
              (saved_world 1 sample_world).(generator)) as (w' & -> & _);
    done.
Defined.

(** ** The form of a test set *)

Lemma u_inj (s1 s2 : string) : u s1 = u s2 → s1 = s2.
Proof.
  unfold u. intros Heq.
  rewrite <-(String.string_of_list_ascii_of_string s1),
          <-(String.string_of_list_ascii_of_string s2).
  f_equal. revert Heq.
  generalize (String.list_ascii_of_string s1),
             (String.list_ascii_of_string s2).
  induction l as [|c l IH]; intros [|c' l']; simpl; try done.
  intros [= Hc Hl]. f_equal; [|by apply IH].
  apply Nat2N.inj in Hc.
  by rewrite <-(Ascii.ascii_nat_embedding c),
             <-(Ascii.ascii_nat_embedding c'), Hc.
Qed.

(** The name of the field of a question: ['question_%d' % question.id]. *)
Lemma format_question_name (n : Z) :
  format (u "question_%d") [ArgInt n]
  = Return (u "question_" ++ u (pretty n)).
Proof.
  change (format (u "question_%d") [ArgInt n])
    with (Return (A := unicode) (u "question_" ++ (u (pretty n) ++ []))).
  by rewrite app_nil_r.
Qed.

Lemma question_name_inj (n1 n2 : Z) :
  u "question_" ++ u (pretty n1) = u "question_" ++ u (pretty n2) →
  n1 = n2.
Proof. intros Heq%app_inv_head%u_inj. by apply (inj pretty). Qed.

Lemma fields_set_new (name : unicode) (field : ChoiceField)
    (fields : list (unicode * ChoiceField)) :
  name ∉ fields.*1 → fields_set name field fields = fields ++ [(name, field)].
Proof.
  induction fields as [|[n f] fields IH]; simpl; [done|].
  intros Hin. rewrite bool_decide_eq_false_2.
  - rewrite IH; [done|]. intros ?. apply Hin. by right.
  - intros ->. apply Hin. by left.
Qed.

Lemma str_raises (t : unicode) (e : exception) :
  str t = Raise e → e = UnicodeEncodeError.
Proof. unfold str. case_bool_decide; [done|]. by intros [= <-]. Qed.

Section ToFormFacts.
Variable option_id : MultipleChoiceOption → Z.

Lemma option_choices_raises (opts : list MultipleChoiceOption)
    (e : exception) :
  option_choices option_id opts = Raise e → e = UnicodeEncodeError.
Proof.
  induction opts as [|opt opts IH]; simpl; [done|].
  destruct (str opt.(value)) as [value_text|e2] eqn:Hv.
  2: { intros [= <-]. by eapply str_raises. }
  destruct (option_choices option_id opts); [done|].
  intros [= <-]. by apply IH.
Qed.

Lemma option_choices_non_ascii (opts : list MultipleChoiceOption) :
  (∃ opt, opt ∈ opts ∧ ¬ Forall (λ c, (c < 128)%N) opt.(value)) →
  option_choices option_id opts = Raise UnicodeEncodeError.
Proof.
  intros Hbad.
  destruct (option_choices option_id opts) as [l|e] eqn:Hrun;
    [|by rewrite (option_choices_raises opts e Hrun)].
  exfalso. revert l Hrun Hbad.
  induction opts as [|opt opts IH]; intros l; simpl.
  { by intros _ (? & ?%elem_of_nil & _). }
  unfold str at 1. case_bool_decide as Hascii; [|done].
  destruct (option_choices option_id opts) as [l'|]; [|done].
  intros _ (bad & [->|Hin]%elem_of_cons & Hbad); [done|].
  apply (IH l'); eauto.
Qed.

(** The loop of the form, question by question. *)
Lemma TestForm_fields_cons (q : MultipleChoiceQuestion)
    (questions : list MultipleChoiceQuestion)
    (fields : list (unicode * ChoiceField)) :
  TestForm_fields option_id (q :: questions) fields
  = match option_choices option_id q.(options) with
    | Raise e => Raise e
    | Return choices =>
        match instructions q.(question) with
        | Raise e => Raise e
        | Return help_text =>
            TestForm_fields option_id questions
              (fields_set (u "question_" ++ u (pretty q.(question).(pk)))
                 {| choices := choices; help_text := help_text;
                    label := q.(stimulus) |} fields)
        end
    end.
Proof.
  cbn [TestForm_fields]. rewrite format_question_name.
  destruct (option_choices option_id q.(options)); [|done].
  by destruct (instructions q.(question)).
Qed.

Lemma TestForm_fields_returns (questions : list MultipleChoiceQuestion)
    (fields fields' : list (unicode * ChoiceField)) :
  NoDup (fields.*1
         ++ ((λ q, u "question_" ++ u (pretty q.(question).(pk)))
               <$> questions)) →
  TestForm_fields option_id questions fields = Return fields' →
  ∃ new, fields' = fields ++ new ∧ Forall2 (field_of option_id) questions new.
Proof.
  revert fields. induction questions as [|q questions IH]; intros fields.
  { intros _ [= <-]. exists []. by rewrite app_nil_r. }
  rewrite TestForm_fields_cons. intros Hnd.
  destruct (option_choices option_id q.(options)) as [cs|] eqn:Hcs;
    [|done].
  destruct (instructions q.(question)) as [ht|] eqn:Hht; [|done].
  rewrite fields_set_new; last first.
  { apply NoDup_app in Hnd as (_ & Hdisj & _).
    intros Hin. apply (Hdisj _ Hin). by left. }
  intros Hrun. apply IH in Hrun as (new & -> & Hnew).
  - eexists (_ :: new). rewrite <-app_assoc. split; [done|].
    by constructor.
  - rewrite fmap_app, <-app_assoc. done.
Qed.

(** For questions with pairwise distinct ids a form that is built has one
    field for every question, in the order of the questions. *)
Lemma TestForm_init_fields (questions : list MultipleChoiceQuestion)
    (fields : list (unicode * ChoiceField)) :
  NoDup ((λ q, q.(question).(pk)) <$> questions) →
  TestForm_init option_id questions = Return fields →
  Forall2 (field_of option_id) questions fields
  ∧ NoDup fields.*1.
Proof.
  intros Hnd Hrun.
  assert (NoDup ((λ q, u "question_" ++ u (pretty q.(question).(pk)))
                   <$> questions)) as Hnames.
  { assert ((λ q, u "question_" ++ u (pretty q.(question).(pk)))
              <$> questions
            = (λ n, u "question_" ++ u (pretty n))
                <$> ((λ q, q.(question).(pk)) <$> questions)) as ->
      by (by rewrite <-list_fmap_compose).
    apply NoDup_fmap_2; [|done]. intros n1 n2. apply question_name_inj. }
  destruct (TestForm_fields_returns questions [] fields) as (new & -> & Hnew);
    [done..|].
  split; [done|]. simpl.
  assert (new.*1 = (λ q, u "question_" ++ u (pretty q.(question).(pk)))
                     <$> questions) as ->; [|done].
  clear -Hnew. induction Hnew as [|q f qs fs (Hname & _) _ IH]; [done|].
  rewrite !fmap_cons. by f_equal.
Qed.

(** X20. A form cannot be built for a test set with an option value outside
    ASCII: [str(opt.value)] raises, so [TestForm.__init__] raises whatever
    else the questions hold, and when the questions before the one with
    that option have their instructions the error is
    [UnicodeEncodeError]. *)
Theorem TestForm_init_non_ascii
    (before after : list MultipleChoiceQuestion)
    (q : MultipleChoiceQuestion) :
  (∃ opt, opt ∈ q.(options) ∧ ¬ Forall (λ c, (c < 128)%N) opt.(value)) →
  (∃ e, TestForm_init option_id (before ++ q :: after) = Raise e)
  ∧ (Forall (λ q', ∃ t, instructions q'.(question) = Return t) before →
     TestForm_init option_id (before ++ q :: after)
     = Raise UnicodeEncodeError).
Proof.
  intros Hbad. unfold TestForm_init. generalize (@nil (unicode * ChoiceField)).
  induction before as [|q' before IH]; intros fields.
  { simpl app. rewrite TestForm_fields_cons.
    rewrite option_choices_non_ascii by done. eauto. }
  rewrite <-app_comm_cons, TestForm_fields_cons.
  destruct (option_choices option_id q'.(options)) as [cs|e] eqn:Hcs.
  2: { rewrite (option_choices_raises _ _ Hcs). eauto. }
  destruct (instructions q'.(question)) as [ht|e] eqn:Hht.
  2: { split; [eauto|]. intros [(t & Ht) _]%Forall_cons.
       rewrite Ht in Hht. done. }
  destruct (IH (fields_set (u "question_" ++ u (pretty q'.(question).(pk)))
                  {| choices := cs; help_text := ht;
                     label := q'.(stimulus) |} fields)) as [Hany Hascii].
  split; [done|]. intros [_ Hbefore]%Forall_cons. by apply Hascii.
Qed.
End ToFormFacts.

Section ToFormRun.
Context `{Random G}.
Variable option_id : MultipleChoiceOption → Z.

(** X19. The form of a test set whose questions have pairwise distinct ids,
    when it can be built, has one field for every question of the set, in
    the order of [ordered_questions] and under pairwise distinct names: the
    field of a question is named [question_<id>] and holds its stimulus as
    label, its instructions as help text and the choices made from its
    options. *)
Theorem to_form_fields (self : TestSet) (g : G)
    (ordered : list MultipleChoiceQuestion)
    (fields : list (unicode * ChoiceField)) :
  NoDup ((λ q, q.(question).(pk)) <$> self.(questions)) →
  (to_form self g).1 = Return ordered →
  TestForm_init option_id ordered = Return fields →
  ordered ≡ₚ self.(questions)
  ∧ (to_form self g).1 = (ordered_questions self g).1
  ∧ Forall2 (field_of option_id) ordered fields
  ∧ NoDup fields.*1.
Proof.
  intros Hnd Hrun Hinit. unfold to_form in *.
  rewrite ordered_questions_unfold in *.
  destruct (shuffle_Permutation
              (order_by (λ q, q.(question).(pk)) self.(questions))
              (seed self.(random_seed))) as (l & g' & Hl & Hperm).
  rewrite Hl in *. simpl in Hrun. injection Hrun as ->.
  rewrite order_by_Permutation in Hperm.
  split; [done|]. split; [done|].
  apply TestForm_init_fields; [|done]. by rewrite Hperm.
Qed.
End ToFormRun.

Lemma to_form_fields_witness :
  ∃ fields,
    TestForm_init (λ _, 7%Z)
      [sample_question 3; sample_question 1; sample_question 2]
    = Return fields
    ∧ NoDup fields.*1.
Proof.
  destruct (TestForm_init (λ _, 7%Z)
              [sample_question 3; sample_question 1; sample_question 2])
    as [fields|e] eqn:Hinit; [|by vm_compute in Hinit].
  exists fields. split; [done|].
  eapply (to_form_fields (λ _, 7%Z) sample_set 0%Z); [by_evaluation| |done].
  by vm_compute.
Defined.

Lemma TestForm_init_non_ascii_witness :
  TestForm_init (λ _, 7%Z)
    [sample_question 1;
     {| question := {| pk := 2; pivot := [0x65e5]%N; pivot_type := "k";
                       question_type := "pr"; question_plugin := 1 |};
        stimulus := [0x65e5]%N;
        options := [{| value := [0x306b; 0x3061]%N; is_correct := true |}] |}]
  = Raise UnicodeEncodeError.
Proof.
  apply (TestForm_init_non_ascii (λ _, 7%Z) [sample_question 1] []).
  - eexists. split; [by left|]. simpl. by intros [?%N.ltb_lt _]%Forall_cons.
  - repeat constructor. by eexists.
Defined.

(** ** The plugins of the user model *)

Lemma split_on_cons (sep : ascii) (s : string) :
  ∃ part parts, split_on sep s = part :: parts.
Proof.
  destruct s as [|c s]; simpl; [by eexists _, _|].
  case_bool_decide; [by eexists _, _|].
  destruct (split_on sep s); by eexists _, _.
Qed.

Lemma split_on_app (sep : ascii) (s1 s2 : string) :
  split_on sep (s1 +:+ String sep s2) = split_on sep s1 ++ split_on sep s2.
Proof.
  induction s1 as [|c s1 IH]; simpl.
  { by rewrite bool_decide_eq_true_2. }
  case_bool_decide; [by rewrite IH|].
  rewrite IH. by destruct (split_on_cons sep s1) as (part & parts & ->).
Qed.

Lemma split_on_absent (sep : ascii) (s : string) :
  sep ∉ String.list_ascii_of_string s → split_on sep s = [s].
Proof.
  induction s as [|c s IH]; simpl; [done|]. intros Hin.
  rewrite bool_decide_eq_false_2 by (intros ->; apply Hin; by left).
  rewrite IH; [done|]. intros ?. apply Hin. by right.
Qed.

Lemma join_split_on (sep : ascii) (s : string) :
  join (String sep EmptyString) (split_on sep s) = s.
Proof.
  induction s as [|c s IH]; [done|]. cbn [split_on].
  destruct (split_on_cons sep s) as (part & parts & Hs).
  rewrite Hs in *. clear Hs. subst s.
  case_bool_decide as Hc; [by subst c|].
  by destruct parts as [|part' parts].
Qed.

Section UserModelPluginsFacts.
Variable PyObject : Type.
Variable import_ : string → result PyObject.
Variable getattr : PyObject → string → result PyObject.

Local Abbreviation plugin_class' := (plugin_class PyObject import_ getattr).

Lemma load_plugins_loop_run (paths : list string)
    (plugin_classes : list PyObject) :
  match load_plugins_loop PyObject import_ getattr paths plugin_classes with
  | Return classes =>
      ∃ new, classes = plugin_classes ++ new
        ∧ Forall2 (λ path cls, plugin_class' path = Return cls) paths new
  | Raise e =>
      ∃ before path after,
        paths = before ++ path :: after
        ∧ plugin_class' path = Raise e
        ∧ Forall (λ p, ∃ cls, plugin_class' p = Return cls) before
  end.
Proof.
  revert plugin_classes.
  induction paths as [|path paths IH]; intros plugin_classes; simpl.
  { exists []. by rewrite app_nil_r. }
  destruct (plugin_class' path) as [cls|e] eqn:Hpath.
  2: { exists [], path, paths. by split_and!. }
  specialize (IH (plugin_classes ++ [cls])).
  destruct (load_plugins_loop _ _ _ paths _) as [classes|e].
  - destruct IH as (new & -> & Hnew). exists (cls :: new).
    rewrite <-app_assoc. split; [done|]. by constructor.
  - destruct IH as (before & bad & after & -> & Hbad & Hbefore).
    exists (path :: before), bad, after. split_and!; [done..|].
    constructor; [by eexists|done].
Qed.

(** X21. [load_plugins] returns one class for every configured path, in the
    order of the paths, each the class its path resolves to, so its result
    is as long as the setting; it raises at the first path that does not
    resolve, with the error of that path. *)
Theorem load_user_model_plugins_spec (USER_MODEL_PLUGINS : list string) :
  match load_user_model_plugins PyObject import_ getattr
          USER_MODEL_PLUGINS with
  | Return classes =>
      length classes = length USER_MODEL_PLUGINS
      ∧ Forall2 (λ path cls, plugin_class' path = Return cls)
                USER_MODEL_PLUGINS classes
  | Raise e =>
      ∃ before path after,
        USER_MODEL_PLUGINS = before ++ path :: after
        ∧ plugin_class' path = Raise e
        ∧ Forall (λ p, ∃ cls, plugin_class' p = Return cls) before
  end.
Proof.
  unfold load_user_model_plugins.
  pose proof (load_plugins_loop_run USER_MODEL_PLUGINS []) as Hrun.
  destruct (load_plugins_loop _ _ _ _ _) as [classes|e]; [|done].
  destruct Hrun as (new & -> & Hnew). simpl.
  split; [|done]. symmetry. by eapply Forall2_length.
Qed.

(** X22. A path [module.Class] makes [load_plugins] import everything before
    the last dot and walk from the imported object through the components
    after the first dot, the class name last; a path without a dot imports
    the empty module name and walks through nothing. *)
Theorem plugin_class_path (module cls : string) :
  "."%char ∉ String.list_ascii_of_string cls →
  plugin_class' (module +:+ String "."%char cls)
  = match import_ module with
    | Raise e => Raise e
    | Return base_module =>
        reduce_getattr PyObject getattr
          (drop 1 (split_on "."%char module) ++ [cls]) base_module
    end
  ∧ plugin_class' cls = import_ EmptyString.
Proof.
  intros Hcls. unfold plugin_class. split.
  - rewrite split_on_app, (split_on_absent _ cls) by done.
    rewrite removelast_last, join_split_on.
    destruct (import_ module) as [base|e]; [|done].
    by destruct (split_on_cons "."%char module) as (part & parts & ->).
  - rewrite split_on_absent by done. simpl.
    by destruct (import_ EmptyString).
Qed.
End UserModelPluginsFacts.

Lemma plugin_class_path_witness :
  plugin_class (list string) (λ name, Return [name])
    (λ obj name, Return (obj ++ [name])) "kanji_test.plugins.Reading"
  = Return ["kanji_test.plugins"; "plugins"; "Reading"].
Proof.
  destruct (plugin_class_path (list string) (λ name, Return [name])
              (λ obj name, Return (obj ++ [name]))
              "kanji_test.plugins" "Reading") as [Hpath _]; [by_evaluation|].
  exact Hpath.
Defined.

(** ** Chart helpers *)

(** X23. For a positive [multiple], [choose_max_value] returns the least
    multiple of it that is not below [current_max]; for a zero [multiple]
    it raises [ZeroDivisionError]. *)
Theorem choose_max_value_spec (current_max multiple : Z) :
  (0 < multiple)%Z →
  ∃ r, choose_max_value current_max multiple = Return r
    ∧ (current_max ≤ r < current_max + multiple)%Z
    ∧ (r `mod` multiple = 0)%Z
    ∧ choose_max_value current_max 0 = Raise ZeroDivisionError.
Proof.
  intros Hm. unfold choose_max_value.
  rewrite bool_decide_eq_false_2 by lia.
  pose proof (Z.mod_pos_bound current_max multiple Hm) as Hr.
  pose proof (Z.div_mod current_max multiple) as Hd.
  case_bool_decide as H0; eexists; (split; [done|]).
  - split_and!; [lia..|done].
  - split_and!; [nia|nia| |done]. apply Z.mod_mul. lia.
Qed.

Lemma choose_max_value_spec_witness :
  ∃ r, choose_max_value 76 10 = Return r ∧ (r `mod` 10 = 0)%Z.
Proof.
  destruct (choose_max_value_spec 76 10) as (r & Hr & _ & Hmod & _);
    [lia|]. by exists r.
Defined.

Lemma iter_ranges_next_positive (st : list Z * Z) :
  iter_ranges_positive st →
  (0 < (iter_ranges_next st).1)%Z
  ∧ iter_ranges_positive (iter_ranges_next st).2.
Proof.
  destruct st as [[|x rest] m]; unfold iter_ranges_positive; simpl.
  - intros [Hm _]. split; [lia|]. split; [lia|]. repeat constructor; lia.
  - intros [Hm [Hx Hrest]%Forall_cons]. split; [lia|done].
Qed.

Lemma choose_integer_tick_loop_Some (fuel : nat) (st : list Z * Z)
    (diff max_ticks tick : Z) :
  iter_ranges_positive st →
  choose_integer_tick_loop fuel st diff max_ticks = Some tick →
  (0 < tick)%Z ∧ (diff `div` tick ≤ max_ticks)%Z
  ∧ ∀ fuel', fuel ≤ fuel' →
      choose_integer_tick_loop fuel' st diff max_ticks = Some tick.
Proof.
  revert st. induction fuel as [|fuel IH]; intros st Hst; [done|].
  cbn [choose_integer_tick_loop].
  destruct (iter_ranges_next_positive st Hst) as [Hpos Hnext].
  destruct (iter_ranges_next st) as [t st'] eqn:Hn. simpl in *.
  case_bool_decide as Hle.
  - intros [= <-]. split_and!; [done..|].
    intros [|fuel'] ?; [lia|]. cbn [choose_integer_tick_loop].
    rewrite Hn. by rewrite bool_decide_eq_true_2.
  - intros Hrun. destruct (IH st' Hnext Hrun) as (? & ? & Hmono).
    split_and!; [done..|].
    intros [|fuel'] ?; [lia|]. cbn [choose_integer_tick_loop].
    rewrite Hn. rewrite bool_decide_eq_false_2 by done. apply Hmono. lia.
Qed.

Lemma pow10_gt (n : nat) : (Z.of_nat n < 10 ^ Z.of_nat n)%Z.
Proof.
  induction n as [|n IH]; [done|].
  rewrite Nat2Z.inj_succ, Z.pow_succ_r by lia. lia.
Qed.

(** A pass of the generator reaches a tick above [diff] after enough
    passes. *)
Lemma choose_integer_tick_pass (n : nat) (m diff max_ticks : Z) :
  (0 < m)%Z → (0 ≤ diff)%Z → (0 ≤ max_ticks)%Z →
  (diff < 10 ^ Z.of_nat n * (10 * m))%Z →
  ∃ tick, choose_integer_tick_loop (3 * n + 1) ([], m) diff max_ticks
          = Some tick.
Proof.
  revert m. induction n as [|n IH]; intros m Hm Hdiff Hmax Hn.
  { simpl. rewrite bool_decide_eq_true_2; [by eexists|].
    rewrite Z.div_small; lia. }
  replace (3 * S n + 1) with (S (S (S (3 * n + 1)))) by lia.
  cbn [choose_integer_tick_loop iter_ranges_next fst snd].
  case_bool_decide; [by eexists|].
  case_bool_decide; [by eexists|].
  case_bool_decide; [by eexists|].
  apply IH; [lia..|].
  rewrite Nat2Z.inj_succ, Z.pow_succ_r in Hn by lia. lia.
Qed.

(** X24. With a non-negative [max_ticks] the loop of [choose_integer_tick]
    ends for all integers: it returns a positive tick with
    [diff / tick <= max_ticks], the same for any larger bound on the
    number of turns. *)
Theorem choose_integer_tick_returns (min_value max_value max_ticks : Z) :
  (0 ≤ max_ticks)%Z →
  ∃ fuel tick,
    (∀ fuel', fuel ≤ fuel' →
       choose_integer_tick fuel' min_value max_value max_ticks = Some tick)
    ∧ (0 < tick)%Z
    ∧ ((max_value - min_value) `div` tick ≤ max_ticks)%Z.
Proof.
  intros Hmax. unfold choose_integer_tick.
  set (diff := (max_value - min_value)%Z).
  assert (iter_ranges_positive iter_ranges_start) as Hstart.
  { split; [done|]. repeat constructor. }
  assert (∃ fuel tick,
            choose_integer_tick_loop fuel iter_ranges_start diff max_ticks
            = Some tick) as (fuel & tick & Hrun).
  { destruct (decide (diff < 0)%Z) as [Hneg|Hpos].
    { exists 1, 1%Z. simpl. rewrite bool_decide_eq_true_2; [done|].
      rewrite Z.div_1_r. lia. }
    destruct (choose_integer_tick_pass (Z.to_nat diff) 1 diff max_ticks)
      as (tick & Hpass); [lia..| |].
    { pose proof (pow10_gt (Z.to_nat diff)). lia. }
    exists (S (S (S (3 * Z.to_nat diff + 1)))).
    unfold iter_ranges_start.
    cbn [choose_integer_tick_loop iter_ranges_next fst snd].
    case_bool_decide; [by eexists|].
    case_bool_decide; [by eexists|].
    case_bool_decide; [by eexists|].
    by exists tick. }
  destruct (choose_integer_tick_loop_Some _ _ _ _ _ Hstart Hrun)
    as (Hpos & Hle & Hmono).
  by exists fuel, tick.
Qed.

Lemma choose_integer_tick_returns_witness :
  ∃ tick, choose_integer_tick 20 2000 2080 10 = Some tick
    ∧ (80 `div` tick ≤ 10)%Z.
Proof.
  destruct (choose_integer_tick_returns 2000 2080 10)
    as (fuel & tick & Hrun & _ & Hle); [lia|].
  exists tick. split; [|done].
  destruct (choose_integer_tick 20 2000 2080 10) as [t|] eqn:Ht;
    [|by vm_compute in Ht].
  rewrite <-(Hrun (fuel `max` 20)) by lia.
  symmetry. unfold choose_integer_tick in *.
  eapply choose_integer_tick_loop_Some; [|exact Ht|lia].
  split; [done|]. repeat constructor.
Defined.

(** X25. With a negative [max_ticks] and [min_value <= max_value] the loop
    of [choose_integer_tick] never returns: every tick is positive, so no
    quotient is below zero. *)
Theorem choose_integer_tick_endless (fuel : nat)
    (min_value max_value max_ticks : Z) :
  (max_ticks < 0)%Z → (min_value ≤ max_value)%Z →
  choose_integer_tick fuel min_value max_value max_ticks = None.
Proof.
  intros Hmax Hdiff. unfold choose_integer_tick.
  assert (iter_ranges_positive iter_ranges_start) as Hstart.
  { split; [done|]. repeat constructor. }
  revert Hstart. generalize iter_ranges_start.
  induction fuel as [|fuel IH]; intros st Hst; [done|].
  cbn [choose_integer_tick_loop].
  destruct (iter_ranges_next_positive st Hst) as [Hpos Hnext].
  destruct (iter_ranges_next st) as [t st']. simpl in *.
  rewrite bool_decide_eq_false_2; [by apply IH|].
  pose proof (Z.div_pos (max_value - min_value) t). lia.
Qed.

Lemma choose_integer_tick_endless_witness :
  choose_integer_tick 1000 0 5 (-1) = None.
Proof. apply choose_integer_tick_endless; lia. Defined.

Lemma string_length_app (s1 s2 : string) :
  String.length (s1 +:+ s2) = String.length s1 + String.length s2.
Proof. induction s1 as [|c s1 IH]; simpl; [done|]. by rewrite IH. Qed.

(** A component from 1 to 15 gives one digit, any other up to 255 two. *)
Lemma hex_component_length (c : Z) :
  (0 ≤ c ≤ 255)%Z →
  String.length (hex_component c)
  = if bool_decide (1 ≤ c ≤ 15)%Z then 1 else 2.
Proof.
  intros Hc.
  assert (Forall (λ n, String.length (hex_component (Z.of_nat n))
                       = if bool_decide (1 ≤ Z.of_nat n ≤ 15)%Z
                         then 1 else 2) (seq 0 256)) as Hall
    by by_evaluation.
  rewrite Forall_forall in Hall.
  specialize (Hall (Z.to_nat c)). rewrite Z2Nat.id in Hall by lia.
  apply Hall, elem_of_seq. lia.
Qed.

(** X26. [to_hex] pads only the component 0: for components from 0 to 255
    the result has the six digits of a colour exactly when every component
    is 0 or at least 16; a component from 1 to 15 gives a single digit. *)
Theorem to_hex_length (r g b : Z) :
  (0 ≤ r ≤ 255)%Z → (0 ≤ g ≤ 255)%Z → (0 ≤ b ≤ 255)%Z →
  String.length (to_hex r g b) = 6
  ↔ (r = 0 ∨ 16 ≤ r)%Z ∧ (g = 0 ∨ 16 ≤ g)%Z ∧ (b = 0 ∨ 16 ≤ b)%Z.
Proof.
  intros Hr Hg Hb. unfold to_hex. cbn [join].
  rewrite !string_length_app. cbn [String.length].
  rewrite !hex_component_length by done.
  repeat case_bool_decide; lia.
Qed.

Lemma to_hex_length_witness :
  String.length (to_hex 30 30 255) = 6
  ∧ String.length (to_hex 5 16 255) ≠ 6.
Proof.
  split.
  - apply to_hex_length; lia.
  - intros Hlen. apply to_hex_length in Hlen; lia.
Defined.

Section PieChartFacts.
Variable Value : Type.
Variable zero : Value.
Variable add : Value → Value → Value.

(** The loop drops options from the end down to [max_options - 1] of them
    and adds their values up in that order. *)
Lemma truncate_loop_drops (max_options : Z)
    (data_from_end : list (string * Value)) (other_value : Value) :
  (1 ≤ max_options)%Z →
  truncate_loop Value add max_options data_from_end other_value
  = (Return
       (foldl (λ acc p, add acc p.2) other_value
          (take (length data_from_end - Z.to_nat (max_options - 1))
                data_from_end)),
     drop (length data_from_end - Z.to_nat (max_options - 1))
          data_from_end).
Proof.
  intros Hmax. revert other_value.
  induction data_from_end as [|p l IH]; intros other_value.
  { simpl. by rewrite bool_decide_eq_false_2 by lia. }
  cbn [truncate_loop]. case_bool_decide as Hlen.
  - rewrite IH. simpl length in *.
    replace (S (length l) - Z.to_nat (max_options - 1))
      with (S (length l - Z.to_nat (max_options - 1))) by lia.
    done.
  - simpl length in *.
    replace (S (length l) - Z.to_nat (max_options - 1)) with 0 by lia.
    done.
Qed.

(** With no option to keep, the loop pops until the list is empty, and the
    next [pop()] raises. *)
Lemma truncate_loop_empties (max_options : Z)
    (data_from_end : list (string * Value)) (other_value : Value) :
  (max_options ≤ 0)%Z →
  truncate_loop Value add max_options data_from_end other_value
  = (Raise IndexError, []).
Proof.
  intros Hmax. revert other_value.
  induction data_from_end as [|p l IH]; intros other_value;
    cbn [truncate_loop]; rewrite bool_decide_eq_true_2 by lia; [done|].
  apply IH.
Qed.

(** X27. Truncating a pie chart to [max_options], at least 1 and at most the
    number of options, leaves in the list the first [max_options - 1]
    options and one option ['Other'] after them, whose value is the sum of
    the dropped values taken from the end, so [max_options] options are
    left; with more [max_options] than options, all options are left and
    an ['Other'] of value zero after them; with [max_options] of 0 or less
    the call empties the list and raises [IndexError]. *)
Theorem truncate_options_spec (sorted_data : list (string * Value))
    (max_options : Z) :
  ((1 ≤ max_options ≤ Z.of_nat (length sorted_data))%Z →
     ∃ truncated,
       truncate_options Value zero add sorted_data max_options
       = (Return tt, truncated)
       ∧ truncated
         = take (Z.to_nat (max_options - 1)) sorted_data
           ++ [("Other",
                foldl (λ acc p, add acc p.2) zero
                  (reverse (drop (Z.to_nat (max_options - 1))
                                 sorted_data)))]
       ∧ Z.of_nat (length truncated) = max_options)
  ∧ ((Z.of_nat (length sorted_data) < max_options)%Z →
     truncate_options Value zero add sorted_data max_options
     = (Return tt, sorted_data ++ [("Other", zero)]))
  ∧ ((max_options ≤ 0)%Z →
     truncate_options Value zero add sorted_data max_options
     = (Raise IndexError, [])).
Proof.
  unfold truncate_options. split_and!.
  - intros [Hmin Hlen]. rewrite truncate_loop_drops by done.
    rewrite length_reverse, drop_reverse, take_reverse, reverse_involutive.
    replace (length sorted_data
             - (length sorted_data - Z.to_nat (max_options - 1)))
      with (Z.to_nat (max_options - 1)) by lia.
    eexists. split_and!; [done..|].
    rewrite length_app, length_take. simpl. lia.
  - intros Hlen. rewrite truncate_loop_drops by lia.
    rewrite length_reverse.
    replace (length sorted_data - Z.to_nat (max_options - 1)) with 0 by lia.
    by rewrite drop_0, reverse_involutive.
  - intros Hmax. by rewrite truncate_loop_empties.
Qed.
End PieChartFacts.

Lemma truncate_options_spec_witness :
  truncate_options Z 0%Z Z.add
    [("a", 5%Z); ("b", 3%Z); ("c", 2%Z); ("d", 1%Z)] 3
  = (Return tt, [("a", 5%Z); ("b", 3%Z); ("Other", 3%Z)])
  ∧ truncate_options Z 0%Z Z.add [("a", 5%Z)] 3
    = (Return tt, [("a", 5%Z); ("Other", 0%Z)])
  ∧ truncate_options Z 0%Z Z.add [("a", 5%Z); ("b", 3%Z)] 0
    = (Raise IndexError, []).
Proof.
  split_and!.
  - destruct (truncate_options_spec Z 0%Z Z.add
                [("a", 5%Z); ("b", 3%Z); ("c", 2%Z); ("d", 1%Z)] 3)
      as [Hsome _].
    destruct Hsome as (truncated & -> & -> & _); [simpl; lia|done].
  - apply (truncate_options_spec Z 0%Z Z.add [("a", 5%Z)] 3). simpl. lia.
  - apply (truncate_options_spec Z 0%Z Z.add [("a", 5%Z); ("b", 3%Z)] 0).
    lia.
Defined.
